(** * Request handlers of the cat/dog demo application

    A shallow embedding of [src/server/controllers/index.js]: the twelve
    Express handlers, the JavaScript values they inspect, the response
    object they write to, and the Mongoose collections they query.

    The handlers are written in a small state-and-exception monad so that
    [try]/[catch], [await], a [TypeError] on a null dereference and the
    promise continuations of [updateLast] read as they do in the source.
    Numbers are the integers among JavaScript's binary64 values, and
    arithmetic and printing round as binary64 does. *)

From stdpp Require Import gmap strings list pretty.

Open Scope Z_scope.
Open Scope string_scope.
Open Scope list_scope.

(** ** JavaScript values found in a parsed request

    The body parser hands the handlers what JSON can express: scalars,
    arrays and objects. Numbers are the integers of the data model
    ([bedsOwned] and [age] are integers): [JNum z] is the binary64 value
    nearest to [z], within the finite range of binary64. *)

#[warnings="-automation"]
Inductive jsval :=
| JUndefined
| JNull
| JBool (b : bool)
| JNum (z : Z)
| JStr (s : string)
| JArr (l : list jsval)
| JObj (fields : list (string * jsval)).

(** [!v] is [negb (truthy v)]: [undefined], [null], [false], [0] and the empty
    string are falsy, every array and every object is truthy. *)
Definition truthy (v : jsval) : bool :=
  match v with
  | JUndefined | JNull => false
  | JBool b => b
  | JNum z => negb (Z.eqb z 0)
  | JStr s => negb (String.eqb s "")
  | JArr _ => true
  | JObj _ => true
  end.

(** *** Numbers

    An integer as binary64 holds it: exact up to 2^53 in absolute value, and
    beyond that rounded to 53 significant bits, to the nearest value and to
    the even one of two that are equally near. *)
Definition toDouble (x : Z) : Z :=
  let a := Z.abs x in
  if Z.ltb a (2 ^ 53) then x
  else
    let ulp := 2 ^ (Z.log2 a - 52) in
    let q := a / ulp in
    let r := a mod ulp in
    let up := if Z.ltb (2 * r) ulp then false
              else if Z.ltb ulp (2 * r) then true
              else Z.odd q in
    Z.sgn x * ((if up then q + 1 else q) * ulp).

(** Beyond the greatest finite value rounding gives an infinity. *)
Definition overflows (x : Z) : bool := Z.leb (2 ^ 1024 - 2 ^ 970) (Z.abs x).

(** [x + y] on numbers *)
Definition jsAdd (x y : Z) : Z := toDouble (x + y).

(** A decimal numeral [digits * 10 ^ (point - count)] of [count] digits. *)
Record decimal := { digits : Z; count : Z; point : Z }.

Definition decimalValue (d : decimal) : Z := digits d * 10 ^ (point d - count d).

Definition digitsOf (a : Z) : Z := Z.of_nat (String.length (pretty a)).

(** The numerals of [k] digits that denote the number [m]: those whose value
    rounds to [m]. *)
Definition decimalsAt (m k : Z) : list decimal :=
  n ← [digitsOf m; digitsOf m + 1];
  s ← [m / 10 ^ (n - k); m / 10 ^ (n - k) + 1];
  if Z.leb k n && Z.leb (10 ^ (k - 1)) s && Z.ltb s (10 ^ k)
     && negb (overflows (s * 10 ^ (n - k)))
     && Z.eqb (toDouble (s * 10 ^ (n - k))) m
  then [{| digits := s; count := k; point := n |}] else [].

(** Of several numerals the one nearest to [m], and of two equally near the
    one with even digits. *)
Fixpoint closest (m : Z) (ds : list decimal) : option decimal :=
  match ds with
  | [] => None
  | d :: r =>
      match closest m r with
      | None => Some d
      | Some d' =>
          let e := Z.abs (decimalValue d - m) in
          let e' := Z.abs (decimalValue d' - m) in
          if Z.ltb e e' then Some d
          else if Z.ltb e' e then Some d'
          else if Z.even (digits d) then Some d else Some d'
      end
  end.

(** The numeral with the fewest digits, trying the counts [ks] in order. *)
Fixpoint shortest (m : Z) (ks : list Z) : option decimal :=
  match ks with
  | [] => None
  | k :: r =>
      match closest m (decimalsAt m k) with
      | Some d => Some d
      | None => shortest m r
      end
  end.

Definition zeros (n : Z) : string := String.concat "" (replicate (Z.to_nat n) "0").

(** Up to 21 digits before the point the numeral is written out, its digits
    followed by zeros; from 22 on in exponent form. *)
Definition printDecimal (d : decimal) : string :=
  let ds := pretty (digits d) in
  if Z.leb (point d) 21 then ds +:+ zeros (point d - count d)
  else
    match ds with
    | String c rest =>
        String c (if Z.eqb (count d) 1 then "" else "." +:+ rest)
          +:+ "e+" +:+ pretty (point d - 1)
    | EmptyString => ds
    end.

(** [Number::toString] on the integers: the shortest numeral that denotes
    the number; seventeen digits always suffice. *)
Definition numberToString (z : Z) : string :=
  let m := Z.abs (toDouble z) in
  if Z.eqb m 0 then "0"
  else
    (if Z.ltb z 0 then "-" else "")
      +:+ (if overflows z then "Infinity"
           else match shortest m (Z.of_nat <$> seq 1 17) with
                | Some d => printDecimal d
                | None => pretty m
                end).

(** [ToString], as applied by a template literal; [None] when it throws. An
    array is joined with commas, its [null] and [undefined] elements
    printing as nothing. An object parsed from JSON prints through
    [Object.prototype.toString] unless it has a [toString] key of its own:
    the value under that key is not a function, no other conversion yields
    a primitive, and [ToString] throws a [TypeError]. *)
Fixpoint to_string (v : jsval) : option string :=
  match v with
  | JUndefined => Some "undefined"
  | JNull => Some "null"
  | JBool true => Some "true"
  | JBool false => Some "false"
  | JNum z => Some (numberToString z)
  | JStr s => Some s
  | JArr l =>
      String.concat "," <$>
        mapM (fun x => match x with
                       | JUndefined | JNull => Some ""
                       | _ => to_string x
                       end) l
  | JObj fields =>
      if bool_decide ("toString" ∈ fields.*1) then None else Some "[object Object]"
  end.

(** ** Data model *)

Module CatDoc.
(** Modelled from the spec: the Cat schema of [../models], which is not part
    of the sources. A stored cat has a required [name], an integer
    [bedsOwned] and a [createdDate] set when the document is constructed. *)
Record t := mk { name : string; bedsOwned : Z; createdDate : Z }.

Definition incBeds (c : t) : t :=
  {| name := name c; bedsOwned := bedsOwned c + 1; createdDate := createdDate c |}.
End CatDoc.

Module DogDoc.
(** Modelled from the spec: the Dog schema of [../models], which is not part
    of the sources. A stored dog has a required [name], a required [breed]
    and an integer [age]. *)
Record t := mk { name : string; breed : string; age : Z }.

Definition setAge (a : Z) (d : t) : t :=
  {| name := name d; breed := breed d; age := a |}.
End DogDoc.

(** A Mongoose document built by [new Cat(...)] or [new Dog(...)] and not yet
    validated: a numeric path whose value could not be cast holds [None]. *)
Record CatDraft := { draftCatName : string; draftBeds : option Z; draftCreated : Z }.
Record DogDraft := { draftDogName : string; draftBreed : string; draftAge : option Z }.

(** ** Requests and responses *)

Record Request := {
  body : gmap string jsval;
  query : gmap string jsval;
  url : string }.

(** Property access on a parsed object: an absent key reads as [undefined]. *)
Definition prop (o : gmap string jsval) (k : string) : jsval :=
  default JUndefined (o !! k).

Inductive locals :=
| NoLocals
| HomeLocals (currentName title pageName : string)
| CatList (cats : list CatDoc.t)
| DogList (dogs : list DogDoc.t)
| NotFoundLocals (page : string).

Inductive payload :=
| Json (fields : list (string * jsval))
| Render (view : string) (data : locals).

Record Response := { status : Z; content : payload }.

(** ** Effects *)

Inductive typeError :=
| ReadOfNull (property : string)  (* cannot read a property of [null] *)
| NoPrimitive.                    (* cannot convert an object to a primitive *)

Inductive exn :=
| StoreError       (* the database did not answer or answered with an error *)
| CastError        (* a query value does not fit the schema *)
| ValidationError  (* [save] refused the document *)
| TypeError (t : typeError).

Inductive collection := Cats | Dogs.

Inductive logged :=
| LogErr (e : exn)
| LogModel (c : collection).

(** What a handler does to the outside, in order. *)
Inductive effect :=
| Console (m : logged)
| Stored (c : collection)
| Respond (r : Response).

Record World := mkWorld {
  cats : list CatDoc.t;
  dogs : list DogDoc.t;
  clock : Z;               (* [Date.now()] *)
  outages : list bool;     (* per store round trip to come: does it fail? *)
  trace : list effect;
  unhandled : list exn     (* rejections of promises nobody observes *)
}.

Definition setCats (l : list CatDoc.t) (w : World) : World :=
  mkWorld l (dogs w) (clock w) (outages w) (trace w) (unhandled w).
Definition setDogs (l : list DogDoc.t) (w : World) : World :=
  mkWorld (cats w) l (clock w) (outages w) (trace w) (unhandled w).
Definition setOutages (o : list bool) (w : World) : World :=
  mkWorld (cats w) (dogs w) (clock w) o (trace w) (unhandled w).
Definition emit (e : effect) (w : World) : World :=
  mkWorld (cats w) (dogs w) (clock w) (outages w) (trace w ++ [e]) (unhandled w).
Definition addUnhandled (e : exn) (w : World) : World :=
  mkWorld (cats w) (dogs w) (clock w) (outages w) (trace w) (unhandled w ++ [e]).

(** The responses written so far. *)
Definition sent (w : World) : list Response :=
  omap (fun e => match e with Respond r => Some r | _ => None end) (trace w).

(** The store answers every round trip still to come. *)
Definition storeUp (w : World) : Prop := Forall (fun b => b = false) (outages w).

(** ** The handler monad: state, and JavaScript exceptions *)

Inductive outcome (A : Type) :=
| Ret (a : A)
| Throw (e : exn).
Arguments Ret {A} a.
Arguments Throw {A} e.

Definition M (A : Type) : Type := World -> outcome A * World.

#[export] Instance M_ret : MRet M := fun A a w => (Ret a, w).
#[export] Instance M_bind : MBind M := fun A B f m w =>
  match m w with
  | (Ret a, w') => f a w'
  | (Throw e, w') => (Throw e, w')
  end.

Definition throw {A} (e : exn) : M A := fun w => (Throw e, w).
Definition getWorld : M World := fun w => (Ret w, w).
Definition modify (f : World -> World) : M unit := fun w => (Ret tt, f w).

(** [try { m } catch (err) { h err }] *)
Definition try_catch {A} (m : M A) (h : exn -> M A) : M A := fun w =>
  match m w with
  | (Ret a, w') => (Ret a, w')
  | (Throw e, w') => h e w'
  end.

(** How a block ends: it falls through with a value, or it executed [return]. *)
Inductive completion (A : Type) :=
| Normal (a : A)
| Returned.
Arguments Normal {A} a.
Arguments Returned {A}.

(** [o.property] where [o] may be [null] *)
Definition deref {A} (property : string) (o : option A) : M A :=
  match o with
  | Some a => mret a
  | None => throw (TypeError (ReadOfNull property))
  end.

(** A value inside a template literal *)
Definition interpolate (v : jsval) : M string :=
  match to_string v with
  | Some s => mret s
  | None => throw (TypeError NoPrimitive)
  end.

Definition console_log (m : logged) : M unit := modify (emit (Console m)).

(** [res.status(code).json(obj)]; [res.json(obj)] is the same with code 200. *)
Definition res_json (code : Z) (obj : list (string * jsval)) : M unit :=
  modify (emit (Respond {| status := code; content := Json obj |})).

(** [res.status(code).render(view, data)]; [res.render] has code 200. *)
Definition res_render (code : Z) (view : string) (data : locals) : M unit :=
  modify (emit (Respond {| status := code; content := Render view data |})).

(** *** Promises *)

Inductive promise (A : Type) :=
| Fulfilled (a : A)
| Rejected (e : exn).
Arguments Fulfilled {A} a.
Arguments Rejected {A} e.

(** Running a computation to a settled promise. *)
Definition settle {A} (m : M A) : M (promise A) := fun w =>
  match m w with
  | (Ret a, w') => (Ret (Fulfilled a), w')
  | (Throw e, w') => (Ret (Rejected e), w')
  end.

(** [p.then(f)]: [f] runs only if [p] is fulfilled, and the promise returned
    is rejected if [p] is or if [f] throws. *)
Definition then_ {A B} (p : promise A) (f : A -> M B) : M (promise B) :=
  match p with
  | Fulfilled a => settle (f a)
  | Rejected e => mret (Rejected e)
  end.

(** [p.catch(g)]: [g] runs only if [p] is rejected. *)
Definition catch_ {A B} (p : promise A) (g : exn -> M B) : M (promise (A + B)) :=
  match p with
  | Fulfilled a => mret (Fulfilled (inl a))
  | Rejected e => b ← settle (g e); mret (match b with
                                          | Fulfilled b => Fulfilled (inr b)
                                          | Rejected e' => Rejected e'
                                          end)
  end.

(** A promise that is dropped: its rejection, if any, is handled by nobody. *)
Definition discard {A} (p : promise A) : M unit :=
  match p with
  | Fulfilled _ => mret tt
  | Rejected e => modify (addUnhandled e)
  end.

(** An [async] handler: Express ignores the promise it returns. *)
Definition async (m : M unit) : M unit := p ← settle m; discard p.

(** The world after a handler has run on a request. *)
Definition run (h : Request -> M unit) (req : Request) (w : World) : World :=
  (h req w).2.

(** ** The record store *)

(** Does the next round trip to the store fail? A store with no outage
    scheduled answers. *)
Definition nextFails (w : World) : bool := default false (head (outages w)).

(** The world once that round trip is over. *)
Definition spend (w : World) : World := setOutages (tail (outages w)) w.

(** Modelled from the spec: the store driver is an external collaborator. A
    round trip either fails, which the caller sees as an exception, or
    succeeds; [outages] says which, one entry per round trip. *)
Definition roundtrip : M unit := fun w =>
  if nextFails w then (Throw StoreError, spend w) else (Ret tt, spend w).

(** Modelled from the spec: "the most recent record is the one with the
    maximum createdDate". [newest] is the position and value of the greatest
    date, as a sort by descending date followed by a limit of one finds it;
    among equal dates the earliest stored wins. *)
Fixpoint newest (dates : list Z) : option (nat * Z) :=
  match dates with
  | [] => None
  | d :: r =>
      match newest r with
      | Some (j, m) => if Z.ltb d m then Some (S j, m) else Some (0%nat, d)
      | None => Some (0%nat, d)
      end
  end.

(** The newest cat of a collection and its place in it. *)
Definition latest (l : list CatDoc.t) : option (nat * CatDoc.t) :=
  match newest (CatDoc.createdDate <$> l) with
  | Some (i, _) => c ← l !! i; Some (i, c)
  | None => None
  end.

(** Modelled from the spec: [required] on a string path means non-empty. *)
Definition required (s : string) : bool := negb (String.eqb s "").

(** [Cat.findOne({}, {}, {sort: {createdDate: 'descending'}}).lean().exec()],
    also written [Cat.findOne({}).sort({createdDate: 'descending'})]. *)
Definition Cat_findOne_latest : M (option CatDoc.t) :=
  roundtrip;; w ← getWorld; mret (snd <$> latest (cats w)).

(** [Cat.find({}).lean().exec()] and [Dog.find({}).lean().exec()] *)
Definition Cat_find : M (list CatDoc.t) :=
  roundtrip;; w ← getWorld; mret (cats w).
Definition Dog_find : M (list DogDoc.t) :=
  roundtrip;; w ← getWorld; mret (dogs w).

(** [Cat.findOneAndUpdate({}, {$inc: {bedsOwned: 1}},
      {returnDocument: 'after', sort: {createdDate: 'descending'}})]:
    one round trip that increments the newest cat and returns it as it is
    afterwards, or [null] when there is no cat. *)
Definition Cat_findOneAndUpdate_inc : M (option CatDoc.t) :=
  roundtrip;;
  w ← getWorld;
  match latest (cats w) with
  | None => mret None
  | Some (i, c) =>
      modify (setCats (<[i := CatDoc.incBeds c]> (cats w)));;
      modify (emit (Stored Cats));;
      mret (Some (CatDoc.incBeds c))
  end.

(** [newCat.save()]: validation first, then one round trip that appends. *)
Definition Cat_save (d : CatDraft) : M unit :=
  match draftBeds d with
  | Some beds =>
      if required (draftCatName d) then
        roundtrip;;
        w ← getWorld;
        modify (setCats (cats w ++ [CatDoc.mk (draftCatName d) beds (draftCreated d)]));;
        modify (emit (Stored Cats))
      else throw ValidationError
  | None => throw ValidationError
  end.

(** [newDog.save()] *)
Definition Dog_save (d : DogDraft) : M unit :=
  match draftAge d with
  | Some a =>
      if required (draftDogName d) && required (draftBreed d) then
        roundtrip;;
        w ← getWorld;
        modify (setDogs (dogs w ++ [DogDoc.mk (draftDogName d) (draftBreed d) a]));;
        modify (emit (Stored Dogs))
      else throw ValidationError
  | None => throw ValidationError
  end.

(** A document fetched without [lean()]: its place in the collection, which
    is where [doc.save()] writes it back, its fields, and whether a field
    has been set to a value other than the one it held. *)
Record DogHandle := { place : nat; fields : DogDoc.t; modified : bool }.

(** [doc.age += 1]: the read of [age] throws on [null]; the sum is a sum of
    numbers; the document is modified if the sum differs from the age. *)
Definition age_incr (doc : option DogHandle) : M (option DogHandle) :=
  d ← deref "age" doc;
  mret (Some {| place := place d;
                fields := DogDoc.setAge (jsAdd (DogDoc.age (fields d)) 1) (fields d);
                modified := modified d
                            || negb (Z.eqb (jsAdd (DogDoc.age (fields d)) 1)
                                       (DogDoc.age (fields d))) |}).

(** [doc.save()] on a fetched dog: the read of [save] throws on [null]; one
    round trip, which writes the document back if it is modified and
    otherwise only finds it again. *)
Definition Dog_doc_save (doc : option DogHandle) : M unit :=
  d ← deref "save" doc;
  roundtrip;;
  if modified d then
    w ← getWorld;
    modify (setDogs (<[place d := fields d]> (dogs w)));;
    modify (emit (Stored Dogs))
  else mret tt.

Section Controllers.

(** The schema casts belong to the store library. [castNumber] is the cast
    of a Number path when a document is constructed, [nameFilter] the cast
    of [{name: v}] into a test on stored names when a query is executed;
    [None] is a cast failure. *)
Variable castNumber : jsval -> option Z.
Variable nameFilter : jsval -> option (string -> bool).

(** [new Cat(catData)]: [createdDate] defaults to [Date.now()]. *)
Definition new_Cat (name : string) (beds : jsval) : M CatDraft :=
  w ← getWorld;
  mret {| draftCatName := name; draftBeds := castNumber beds; draftCreated := clock w |}.

(** [new Dog(dogData)] *)
Definition new_Dog (name breed : string) (age : jsval) : M DogDraft :=
  mret {| draftDogName := name; draftBreed := breed; draftAge := castNumber age |}.

(** [Cat.findOne({name: v}).exec()] *)
Definition Cat_findOne (v : jsval) : M (option CatDoc.t) :=
  match nameFilter v with
  | None => throw CastError
  | Some p =>
      roundtrip;;
      w ← getWorld;
      mret (snd <$> list_find (fun c => p (CatDoc.name c) = true) (cats w))
  end.

(** [Dog.findOne({name: v}).exec()] *)
Definition Dog_findOne (v : jsval) : M (option DogHandle) :=
  match nameFilter v with
  | None => throw CastError
  | Some p =>
      roundtrip;;
      w ← getWorld;
      mret ((fun found => {| place := found.1; fields := found.2; modified := false |})
              <$> list_find (fun d => p (DogDoc.name d) = true) (dogs w))
  end.

(** *** The handlers, in the order of the source *)

Definition hostIndex (req : Request) : M unit :=
  async (
    name ← try_catch
              (doc ← Cat_findOne_latest;
               mret (match doc with
                     | Some c => CatDoc.name c
                     | None => "unknown"
                     end))
              (fun err => console_log (LogErr err);; mret "unknown");
    res_render 200 "index" (HomeLocals name "Home" "Home Page")).

Definition hostPage1 (req : Request) : M unit :=
  async (
    try_catch
      (docs ← Cat_find;
       res_render 200 "page1" (CatList docs))
      (fun err =>
         console_log (LogErr err);;
         res_json 500 [("error", JStr "failed to find cats")])).

Definition hostPage2 (req : Request) : M unit :=
  res_render 200 "page2" NoLocals.

Definition hostPage3 (req : Request) : M unit :=
  res_render 200 "page3" NoLocals.

Definition hostPage4 (req : Request) : M unit :=
  async (
    try_catch
      (docs ← Dog_find;
       res_render 200 "page4" (DogList docs))
      (fun err =>
         console_log (LogErr err);;
         res_json 500 [("error", JStr "failed to find dogs")])).

Definition getName (req : Request) : M unit :=
  async (
    try_catch
      (doc ← Cat_findOne_latest;
       match doc with
       | Some c => res_json 200 [("name", JStr (CatDoc.name c))]
       | None => res_json 404 [("error", JStr "No cat found")]
       end)
      (fun err =>
         console_log (LogErr err);;
         res_json 500 [("error", JStr "Something went wrong contacting the database")])).

(** The value of a numeric path of a document under construction. *)
Definition numField (o : option Z) : jsval :=
  match o with
  | Some z => JNum z
  | None => JUndefined
  end.

Definition setName (req : Request) : M unit :=
  async (
    if negb (truthy (prop (body req) "firstname"))
       || negb (truthy (prop (body req) "lastname"))
       || negb (truthy (prop (body req) "beds"))
    then
      res_json 400 [("error", JStr "firstname, lastname and beds are all required")]
    else
      first ← interpolate (prop (body req) "firstname");
      last ← interpolate (prop (body req) "lastname");
      newCat ← new_Cat (first +:+ " " +:+ last) (prop (body req) "beds");
      try_catch
        (Cat_save newCat;;
         res_json 201 [("name", JStr (draftCatName newCat));
                       ("beds", numField (draftBeds newCat))])
        (fun err =>
           console_log (LogErr err);;
           res_json 500 [("error", JStr "failed to create cat")])).

Definition searchName (req : Request) : M unit :=
  async (
    if negb (truthy (prop (query req) "name")) then
      res_json 400 [("error", JStr "Name is required to perform a search")]
    else
      r ← try_catch
            (doc ← Cat_findOne (prop (query req) "name");
             mret (Normal doc))
            (fun err =>
               console_log (LogErr err);;
               res_json 500 [("error", JStr "Something went wrong")];;
               mret Returned);
      match r with
      | Returned => mret tt
      | Normal None => res_json 404 [("error", JStr "No cats found")]
      | Normal (Some c) =>
          res_json 200 [("name", JStr (CatDoc.name c));
                        ("beds", JNum (CatDoc.bedsOwned c))]
      end).

Definition updateLast (req : Request) : M unit :=
  updatePromise ← settle Cat_findOneAndUpdate_inc;
  sent_ ← then_ updatePromise
            (fun doc =>
               c ← deref "name" doc;
               res_json 200 [("name", JStr (CatDoc.name c));
                             ("beds", JNum (CatDoc.bedsOwned c))]);
  discard sent_;;
  failed ← catch_ updatePromise
             (fun err =>
                console_log (LogErr err);;
                res_json 500 [("error", JStr "Something went wrong")]);
  discard failed.

Definition setDogName (req : Request) : M unit :=
  async (
    if negb (truthy (prop (body req) "name"))
       || negb (truthy (prop (body req) "breed"))
       || negb (truthy (prop (body req) "age"))
    then
      res_json 400 [("error", JStr "name, breed and age are all required")]
    else
      name ← interpolate (prop (body req) "name");
      breed ← interpolate (prop (body req) "breed");
      newDog ← new_Dog name breed (prop (body req) "age");
      try_catch
        (Dog_save newDog;;
         res_json 201 [("name", JStr (draftDogName newDog));
                       ("breed", JStr (draftBreed newDog));
                       ("age", numField (draftAge newDog))])
        (fun err =>
           console_log (LogErr err);;
           res_json 500 [("error", JStr "failed to create dog")])).

Definition searchDogName (req : Request) : M unit :=
  async (
    if negb (truthy (prop (body req) "dogname")) then
      console_log (LogModel Dogs);;
      res_json 400 [("error", JStr "Name is required to perform a search")]
    else
      r ← try_catch
            (doc ← Dog_findOne (prop (body req) "dogname");
             doc ← age_incr doc;
             Dog_doc_save doc;;
             mret (Normal doc))
            (fun err =>
               console_log (LogErr err);;
               res_json 500 [("error", JStr "Something went wrong")];;
               mret Returned);
      match r with
      | Returned => mret tt
      | Normal None => res_json 404 [("error", JStr "No dog found")]
      | Normal (Some d) =>
          res_json 200 [("name", JStr (DogDoc.name (fields d)));
                        ("breed", JStr (DogDoc.breed (fields d)));
                        ("age", JNum (DogDoc.age (fields d)))]
      end).

Definition notFound (req : Request) : M unit :=
  res_render 404 "notFound" (NotFoundLocals (url req)).

End Controllers.

(** ** The exported routes *)

(** The functions the module exports, by the name they are exported under. *)
Inductive route :=
| Index | Page1 | Page2 | Page3 | Page4
| GetName | SetName | UpdateLast | SearchName
| SetDogName | SearchDogName | NotFound.

Definition exports (castNumber : jsval -> option Z)
    (nameFilter : jsval -> option (string -> bool)) (r : route) : Request -> M unit :=
  match r with
  | Index => hostIndex
  | Page1 => hostPage1
  | Page2 => hostPage2
  | Page3 => hostPage3
  | Page4 => hostPage4
  | GetName => getName
  | SetName => setName castNumber
  | UpdateLast => updateLast
  | SearchName => searchName nameFilter
  | SetDogName => setDogName castNumber
  | SearchDogName => searchDogName nameFilter
  | NotFound => notFound
  end.

(** What reaches the server next: a request for a route, at a time of the
    clock, with the availability of the store for the round trips it makes. *)
Record arrival := {
  via : route;
  request : Request;
  now : Z;
  faults : list bool }.

(** The server handles the arrivals one after the other. *)
Definition serve (castNumber : jsval -> option Z)
    (nameFilter : jsval -> option (string -> bool))
    (arrivals : list arrival) (w : World) : World :=
  foldl (fun w a =>
           run (exports castNumber nameFilter (via a)) (request a)
             (mkWorld (cats w) (dogs w) (now a) (faults a) (trace w) (unhandled w)))
        w arrivals.

(** ** A store library for the examples

    The least the laws below ask for: integers are accepted on a Number
    path, a string queries by equality, anything else is a cast failure. *)
Definition strictNumber (v : jsval) : option Z :=
  match v with
  | JNum z => Some z
  | _ => None
  end.

Definition strictName (v : jsval) : option (string -> bool) :=
  match v with
  | JStr s => Some (String.eqb s)
  | _ => None
  end.

(** The laws of the store library that the theorems rely on. *)
Definition castsIntegers (castNumber : jsval -> option Z) : Prop :=
  forall z, castNumber (JNum z) = Some z.

Definition filtersByEquality (nameFilter : jsval -> option (string -> bool)) : Prop :=
  forall s, nameFilter (JStr s) = Some (String.eqb s).

(** ** Vocabulary of the statements *)

(** An age to which one can be added exactly. *)
Definition safeAge (a : Z) : Prop := - 2 ^ 53 <= a < 2 ^ 53.

(** [c] is a cat of [l] with the maximum [createdDate]. *)
Definition mostRecent (c : CatDoc.t) (l : list CatDoc.t) : Prop :=
  c ∈ l /\ forall c', c' ∈ l -> CatDoc.createdDate c' <= CatDoc.createdDate c.

(** Every stored record has a non-empty name. *)
Definition namesNonEmpty (w : World) : Prop :=
  Forall (fun c => CatDoc.name c <> "") (cats w)
  /\ Forall (fun d => DogDoc.name d <> "") (dogs w).

Definition sameStore (w w' : World) : Prop :=
  cats w' = cats w /\ dogs w' = dogs w.

Definition respond (code : Z) (obj : list (string * jsval)) : Response :=
  {| status := code; content := Json obj |}.

(** A request with a body and nothing else. *)
Definition post (fields : list (string * jsval)) : Request :=
  {| body := list_to_map fields; query := ∅; url := "/" |}.

(** A quiet world holding the given records. *)
Definition world (cs : list CatDoc.t) (ds : list DogDoc.t) (time : Z) (out : list bool) : World :=
  mkWorld cs ds time out [] [].

Definition homePage (name : string) : Response :=
  {| status := 200; content := Render "index" (HomeLocals name "Home" "Home Page") |}.

Definition missingCatFields : Response :=
  respond 400 [("error", JStr "firstname, lastname and beds are all required")].

Definition missingDogFields : Response :=
  respond 400 [("error", JStr "name, breed and age are all required")].

(** The request carries a first name, a last name and a number of beds that
    are valid for the data model: two non-empty strings and an integer. *)
Definition validCatBody (req : Request) (first last : string) (beds : Z) : Prop :=
  body req !! "firstname" = Some (JStr first)
  /\ body req !! "lastname" = Some (JStr last)
  /\ body req !! "beds" = Some (JNum beds)
  /\ first <> "" /\ last <> "".

(** [setName] answered 201 with the full name and the beds, and stored a cat
    under that name. *)
Definition createdCat (castNumber : jsval -> option Z)
    (req : Request) (w : World) (first last : string) (beds : Z) : Prop :=
  sent (run (setName castNumber) req w) =
    sent w ++ [respond 201 [("name", JStr (first +:+ " " +:+ last)); ("beds", JNum beds)]]
  /\ cats (run (setName castNumber) req w) =
       cats w ++ [CatDoc.mk (first +:+ " " +:+ last) beds (clock w)]
  /\ dogs (run (setName castNumber) req w) = dogs w.

Definition catInfo (c : CatDoc.t) : Response :=
  respond 200 [("name", JStr (CatDoc.name c)); ("beds", JNum (CatDoc.bedsOwned c))].

Definition somethingWrong : Response :=
  respond 500 [("error", JStr "Something went wrong")].

Definition nameRequired : Response :=
  respond 400 [("error", JStr "Name is required to perform a search")].

Definition dogInfo (d : DogDoc.t) : Response :=
  respond 200 [("name", JStr (DogDoc.name d));
               ("breed", JStr (DogDoc.breed d));
               ("age", JNum (DogDoc.age d))].

(** The dog after [age += 1]. *)
Definition older (d : DogDoc.t) : DogDoc.t := DogDoc.setAge (jsAdd (DogDoc.age d) 1) d.

(** What the handler does once its [try] block has thrown [e]. *)
Definition failedWith (e : exn) (w : World) : World :=
  emit (Respond somethingWrong) (emit (Console (LogErr e)) w).

(** From [w] to [w'] the names of the records already stored are the same,
    in the same places, and the records added have non-empty names. *)
Definition namesKept (w w' : World) : Prop :=
  exists newCats newDogs,
    CatDoc.name <$> cats w' = (CatDoc.name <$> cats w) ++ newCats
    /\ DogDoc.name <$> dogs w' = (DogDoc.name <$> dogs w) ++ newDogs
    /\ Forall (fun n => n <> "") newCats
    /\ Forall (fun n => n <> "") newDogs.

(** ** Vocabulary of the further properties *)

(** The request carries a name, a breed and an age that are valid for the
    data model and pass the handler's check: two non-empty strings and an
    integer other than zero. *)
Definition validDogBody (req : Request) (name breed : string) (age : Z) : Prop :=
  body req !! "name" = Some (JStr name)
  /\ body req !! "breed" = Some (JStr breed)
  /\ body req !! "age" = Some (JNum age)
  /\ name <> "" /\ breed <> "" /\ age <> 0.

(** The error text a route answers with when its store call fails; the
    routes that never answer 500 have none. *)
Definition failureMessage (r : route) : option string :=
  match r with
  | Page1 => Some "failed to find cats"
  | Page4 => Some "failed to find dogs"
  | GetName => Some "Something went wrong contacting the database"
  | SetName => Some "failed to create cat"
  | SetDogName => Some "failed to create dog"
  | UpdateLast | SearchName | SearchDogName => Some "Something went wrong"
  | Index | Page2 | Page3 | NotFound => None
  end.

(** The error text a route answers with when a required field is absent. *)
Definition refusalMessage (r : route) : option string :=
  match r with
  | SetName => Some "firstname, lastname and beds are all required"
  | SetDogName => Some "name, breed and age are all required"
  | SearchName | SearchDogName => Some "Name is required to perform a search"
  | _ => None
  end.

(** The calls that write no response: [updateLast] when the store answers
    and holds no cat, and a creation whose fields pass the check but whose
    name or breed cannot be converted to a string, an exception the
    handler does not catch. *)
Definition silent (r : route) (req : Request) (w : World) : Prop :=
  match r with
  | UpdateLast => nextFails w = false /\ cats w = []
  | SetName =>
      truthy (prop (body req) "firstname") = true
      /\ truthy (prop (body req) "lastname") = true
      /\ truthy (prop (body req) "beds") = true
      /\ (to_string (prop (body req) "firstname") = None
          \/ to_string (prop (body req) "lastname") = None)
  | SetDogName =>
      truthy (prop (body req) "name") = true
      /\ truthy (prop (body req) "breed") = true
      /\ truthy (prop (body req) "age") = true
      /\ (to_string (prop (body req) "name") = None
          \/ to_string (prop (body req) "breed") = None)
  | _ => False
  end.





(** A request with a query string and nothing else. *)
Definition get (params : list (string * jsval)) : Request :=
  {| body := ∅; query := list_to_map params; url := "/" |}.

(** * Properties *)

Example to_string_num : to_string (JNum (-42)) = Some "-42".
Proof. reflexivity. Qed.

Example to_string_arr :
  to_string (JArr [JNum 1; JNull; JArr [JStr "a"; JBool true]]) = Some "1,,a,true".
Proof. reflexivity. Qed.

Example to_string_empty_arr :
  truthy (JArr []) = true /\ to_string (JArr []) = Some "".
Proof. split; reflexivity. Qed.

Example to_string_obj :
  to_string (JObj [("a", JNum 1)]) = Some "[object Object]"
  /\ to_string (JObj [("toString", JNull)]) = None
  /\ to_string (JArr [JStr "a"; JObj [("toString", JNum 1)]]) = None.
Proof. repeat split. Qed.

Example numberToString_safe :
  numberToString 0 = "0"
  /\ numberToString 1200 = "1200"
  /\ numberToString (2 ^ 53) = "9007199254740992".
Proof. repeat split; vm_compute; reflexivity. Qed.

Example numberToString_large :
  numberToString (2 ^ 64) = "18446744073709552000"
  /\ numberToString (10 ^ 21) = "1e+21"
  /\ numberToString (2 ^ 70) = "1.1805916207174113e+21"
  /\ numberToString (10 ^ 23) = "1e+23".
Proof. repeat split; vm_compute; reflexivity. Qed.

Example jsAdd_large :
  jsAdd (2 ^ 53 - 1) 1 = 2 ^ 53
  /\ jsAdd (2 ^ 53) 1 = 2 ^ 53
  /\ jsAdd (2 ^ 53 + 2) 1 = 2 ^ 53 + 4.
Proof. repeat split; vm_compute; reflexivity. Qed.

(** ** The newest record *)

Lemma newest_None dates : newest dates = None <-> dates = [].
Proof.
  destruct dates as [|d r]; simpl; [done|].
  split; [|done].
  destruct (newest r) as [[j m]|]; [|done].
  by destruct (Z.ltb d m).
Qed.

Lemma newest_Some dates i m :
  newest dates = Some (i, m) ->
  dates !! i = Some m /\ Forall (fun d => d <= m) dates.
Proof.
  revert i m. induction dates as [|d r IH]; intros i m; simpl; [done|].
  destruct (newest r) as [[j m']|] eqn:Hr.
  - destruct (IH j m' eq_refl) as [Hj Hall].
    destruct (Z.ltb_spec d m'); intros [= <- <-]; simpl.
    + split; [done|]. constructor; [lia|done].
    + split; [done|]. constructor; [lia|].
      eapply Forall_impl; [exact Hall|]. simpl. intros; lia.
  - apply newest_None in Hr as ->. intros [= <- <-]. simpl.
    split; [done|]. by repeat constructor.
Qed.

Lemma latest_nil : latest [] = None.
Proof. reflexivity. Qed.

Lemma latest_None l : latest l = None -> l = [].
Proof.
  unfold latest. destruct (newest _) as [[i m]|] eqn:Hn.
  - apply newest_Some in Hn as [Hi _].
    rewrite list_lookup_fmap in Hi.
    destruct (l !! i); [done|discriminate].
  - intros _. apply newest_None in Hn. by apply fmap_nil_inv in Hn.
Qed.

Lemma latest_Some l i c :
  latest l = Some (i, c) -> l !! i = Some c /\ mostRecent c l.
Proof.
  unfold latest. destruct (newest _) as [[j m]|] eqn:Hn; [|done].
  apply newest_Some in Hn as [Hj Hall].
  rewrite list_lookup_fmap in Hj.
  destruct (l !! j) as [c0|] eqn:Hc; simpl in *; [|done].
  intros [= <- <-]. injection Hj as <-.
  split; [done|]. split.
  - by eapply list_elem_of_lookup_2.
  - intros c' Hc'. rewrite Forall_fmap in Hall.
    rewrite Forall_forall in Hall. by apply Hall.
Qed.


(** ** Reading a world *)

Lemma sent_emit_Respond r w : sent (emit (Respond r) w) = sent w ++ [r].
Proof. unfold sent. simpl. by rewrite omap_app. Qed.

Lemma sent_emit_Console m w : sent (emit (Console m) w) = sent w.
Proof. unfold sent. simpl. rewrite omap_app. simpl. by rewrite app_nil_r. Qed.

Lemma sent_emit_Stored c w : sent (emit (Stored c) w) = sent w.
Proof. unfold sent. simpl. rewrite omap_app. simpl. by rewrite app_nil_r. Qed.

Lemma sent_spend w : sent (spend w) = sent w.
Proof. reflexivity. Qed.

Lemma sent_setCats l w : sent (setCats l w) = sent w.
Proof. reflexivity. Qed.

Lemma sent_setDogs l w : sent (setDogs l w) = sent w.
Proof. reflexivity. Qed.

Lemma sent_addUnhandled e w : sent (addUnhandled e w) = sent w.
Proof. reflexivity. Qed.

Create Rewrite HintDb world.
#[export] Hint Rewrite sent_emit_Respond sent_emit_Console sent_emit_Stored
  sent_spend sent_setCats sent_setDogs sent_addUnhandled : world.

Lemma storeUp_nextFails w : storeUp w -> nextFails w = false.
Proof.
  unfold storeUp, nextFails. destruct (outages w) as [|b o]; [done|].
  intros H. by apply Forall_cons in H as [-> _].
Qed.

Lemma storeUp_spend w : storeUp w -> storeUp (spend w).
Proof.
  unfold storeUp. simpl. destruct (outages w) as [|b o]; [done|].
  intros H. by apply Forall_cons in H as [_ H].
Qed.

(** Unfolding the monad down to functions on worlds. *)
Ltac exec :=
  unfold run, async, try_catch, settle, discard, then_, catch_, deref, interpolate,
    console_log, res_json, res_render, modify, getWorld, throw,
    mbind, M_bind, mret, M_ret; simpl.

(** ** The handlers in closed form *)

Lemma hostIndex_ok req w :
  nextFails w = false ->
  run hostIndex req w =
    emit (Respond (homePage (match latest (cats w) with
                             | Some (_, c) => CatDoc.name c
                             | None => "unknown"
                             end))) (spend w).
Proof.
  intros Hup. unfold hostIndex, Cat_findOne_latest, roundtrip. exec.
  rewrite Hup. simpl. by destruct (latest (cats w)) as [[i c]|].
Qed.

Lemma hostIndex_down req w :
  nextFails w = true ->
  run hostIndex req w =
    emit (Respond (homePage "unknown")) (emit (Console (LogErr StoreError)) (spend w)).
Proof.
  intros Hdown. unfold hostIndex, Cat_findOne_latest, roundtrip. exec.
  by rewrite Hdown.
Qed.

Lemma getName_ok req w :
  nextFails w = false ->
  run getName req w =
    emit (Respond (match latest (cats w) with
                   | Some (_, c) => respond 200 [("name", JStr (CatDoc.name c))]
                   | None => respond 404 [("error", JStr "No cat found")]
                   end)) (spend w).
Proof.
  intros Hup. unfold getName, Cat_findOne_latest, roundtrip. exec.
  rewrite Hup. simpl. by destruct (latest (cats w)) as [[i c]|].
Qed.

Lemma getName_down req w :
  nextFails w = true ->
  run getName req w =
    emit (Respond (respond 500
                     [("error", JStr "Something went wrong contacting the database")]))
      (emit (Console (LogErr StoreError)) (spend w)).
Proof.
  intros Hdown. unfold getName, Cat_findOne_latest, roundtrip. exec.
  by rewrite Hdown.
Qed.

(** ** The home page *)

(** C6: [hostIndex] always answers 200 with the home view. The name shown is
    that of a cat with the greatest [createdDate] when the query succeeds and
    a cat exists, and the literal "unknown" when no cat exists or when the
    query fails; in the failing case the error is logged and nothing else
    is written before the page. The store is never modified. *)
Theorem hostIndex_always_renders_home (req : Request) (w : World) :
  exists name,
    sent (run hostIndex req w) = sent w ++ [homePage name]
    /\ sameStore w (run hostIndex req w)
    /\ (nextFails w = false -> cats w = [] -> name = "unknown")
    /\ (nextFails w = false -> cats w <> [] ->
        exists c, mostRecent c (cats w) /\ name = CatDoc.name c)
    /\ (nextFails w = true ->
        name = "unknown"
        /\ trace (run hostIndex req w) =
             trace w ++ [Console (LogErr StoreError); Respond (homePage "unknown")]).
Proof.
  destruct (nextFails w) eqn:Hf.
  - exists "unknown". rewrite hostIndex_down by done.
    autorewrite with world. repeat split; try done.
    simpl. by rewrite <- app_assoc.
  - rewrite hostIndex_ok by done. eexists.
    autorewrite with world. split; [reflexivity|].
    split; [done|]. repeat split; try done.
    + intros _ ->. by rewrite latest_nil.
    + intros _ Hne. destruct (latest (cats w)) as [[i c]|] eqn:Hl.
      * exists c. split; [|done]. by eapply latest_Some.
      * by apply latest_None in Hl.
Qed.

Lemma hostIndex_always_renders_home_witness :
  (exists name,
     sent (run hostIndex (post []) (world [] [] 0 [])) = [homePage name]
     /\ name = "unknown")
  /\ (exists name,
        sent (run hostIndex (post [])
                (world [CatDoc.mk "Old Cat" 1 10; CatDoc.mk "Tom Cat" 3 20] [] 30 []))
          = [homePage name]
        /\ name = "Tom Cat")
  /\ (exists name,
        sent (run hostIndex (post [])
                (world [CatDoc.mk "Tom Cat" 3 20] [] 30 [true])) = [homePage name]
        /\ name = "unknown").
Proof.
  split; [|split].
  - destruct (hostIndex_always_renders_home (post []) (world [] [] 0 []))
      as (name & Hs & _ & Hnone & _).
    exists name. split; [exact Hs|]. by apply Hnone.
  - exists "Tom Cat". split; reflexivity.
  - exists "unknown". split; reflexivity.
Defined.

(** ** The name of the newest cat *)

(** C5: [getName] answers 200 with the name of a cat of greatest
    [createdDate] when the query succeeds and a cat exists, 404 with an
    error body when the query succeeds and no cat exists, and 500 with an
    error body when the query fails. *)
Theorem getName_three_ways (req : Request) (w : World) :
  (nextFails w = false -> cats w <> [] ->
   exists c, mostRecent c (cats w)
     /\ sent (run getName req w) =
          sent w ++ [respond 200 [("name", JStr (CatDoc.name c))]])
  /\ (nextFails w = false -> cats w = [] ->
      sent (run getName req w) =
        sent w ++ [respond 404 [("error", JStr "No cat found")]])
  /\ (nextFails w = true ->
      sent (run getName req w) =
        sent w ++ [respond 500
                     [("error", JStr "Something went wrong contacting the database")]]).
Proof.
  split; [|split].
  - intros Hup Hne. rewrite getName_ok by done.
    destruct (latest (cats w)) as [[i c]|] eqn:Hl.
    + exists c. split; [by eapply latest_Some|]. by autorewrite with world.
    + by apply latest_None in Hl.
  - intros Hup Hnil. rewrite getName_ok by done.
    rewrite Hnil, latest_nil. by autorewrite with world.
  - intros Hdown. rewrite getName_down by done. by autorewrite with world.
Qed.

Lemma getName_three_ways_witness :
  sent (run getName (post [])
          (world [CatDoc.mk "Old Cat" 1 10; CatDoc.mk "Tom Cat" 3 20] [] 30 []))
    = [respond 200 [("name", JStr "Tom Cat")]]
  /\ sent (run getName (post []) (world [] [] 30 []))
       = [respond 404 [("error", JStr "No cat found")]]
  /\ sent (run getName (post []) (world [CatDoc.mk "Tom Cat" 3 20] [] 30 [true]))
       = [respond 500 [("error", JStr "Something went wrong contacting the database")]].
Proof.
  split; [|split].
  - reflexivity.
  - by apply (getName_three_ways (post []) (world [] [] 30 [])).
  - by apply (getName_three_ways (post []) (world [CatDoc.mk "Tom Cat" 3 20] [] 30 [true])).
Defined.

(** ** Creating records *)

(** The name [setName] builds is never empty: it contains the space. *)
Lemma required_full_name (a b : string) : required (a +:+ " " +:+ b) = true.
Proof. by destruct a. Qed.

Section Creation.

Variable castNumber : jsval -> option Z.

Lemma setName_eq req w :
  run (setName castNumber) req w =
    if negb (truthy (prop (body req) "firstname"))
       || negb (truthy (prop (body req) "lastname"))
       || negb (truthy (prop (body req) "beds"))
    then emit (Respond missingCatFields) w
    else
      match to_string (prop (body req) "firstname"),
            to_string (prop (body req) "lastname") with
      | Some first, Some last =>
          match castNumber (prop (body req) "beds") with
          | None =>
              emit (Respond (respond 500 [("error", JStr "failed to create cat")]))
                (emit (Console (LogErr ValidationError)) w)
          | Some beds =>
              if nextFails w then
                emit (Respond (respond 500 [("error", JStr "failed to create cat")]))
                  (emit (Console (LogErr StoreError)) (spend w))
              else
                emit (Respond (respond 201
                                 [("name", JStr (first +:+ " " +:+ last));
                                  ("beds", JNum beds)]))
                  (emit (Stored Cats)
                     (setCats (cats w ++
                                 [CatDoc.mk (first +:+ " " +:+ last) beds (clock w)])
                        (spend w)))
          end
      | _, _ => addUnhandled (TypeError NoPrimitive) w
      end.
Proof.
  unfold setName, new_Cat, Cat_save, roundtrip. exec.
  destruct (_ || _); [done|]. simpl.
  destruct (to_string (prop (body req) "firstname")) as [first|]; [|done]. simpl.
  destruct (to_string (prop (body req) "lastname")) as [last|]; [|done]. simpl.
  destruct (castNumber _) as [beds|]; [|done].
  rewrite required_full_name. by destruct (nextFails w).
Qed.

Lemma setDogName_eq req w :
  run (setDogName castNumber) req w =
    if negb (truthy (prop (body req) "name"))
       || negb (truthy (prop (body req) "breed"))
       || negb (truthy (prop (body req) "age"))
    then emit (Respond missingDogFields) w
    else
      match to_string (prop (body req) "name"),
            to_string (prop (body req) "breed") with
      | Some name, Some breed =>
          match castNumber (prop (body req) "age") with
          | None =>
              emit (Respond (respond 500 [("error", JStr "failed to create dog")]))
                (emit (Console (LogErr ValidationError)) w)
          | Some age =>
              if required name && required breed then
                if nextFails w then
                  emit (Respond (respond 500 [("error", JStr "failed to create dog")]))
                    (emit (Console (LogErr StoreError)) (spend w))
                else
                  emit (Respond (respond 201
                                   [("name", JStr name); ("breed", JStr breed);
                                    ("age", JNum age)]))
                    (emit (Stored Dogs)
                       (setDogs (dogs w ++ [DogDoc.mk name breed age]) (spend w)))
              else
                emit (Respond (respond 500 [("error", JStr "failed to create dog")]))
                  (emit (Console (LogErr ValidationError)) w)
          end
      | _, _ => addUnhandled (TypeError NoPrimitive) w
      end.
Proof.
  unfold setDogName, new_Dog, Dog_save, roundtrip. exec.
  destruct (_ || _); [done|]. simpl.
  destruct (to_string (prop (body req) "name")) as [name|]; [|done]. simpl.
  destruct (to_string (prop (body req) "breed")) as [breed|]; [|done]. simpl.
  destruct (castNumber _) as [age|]; [|done].
  destruct (_ && _); [|done]. by destruct (nextFails w).
Qed.

End Creation.

Lemma prop_Some (o : gmap string jsval) k v : o !! k = Some v -> prop o k = v.
Proof. unfold prop. by intros ->. Qed.

Lemma prop_None (o : gmap string jsval) k : o !! k = None -> prop o k = JUndefined.
Proof. unfold prop. by intros ->. Qed.

Lemma truthy_JStr s : s <> "" -> truthy (JStr s) = true.
Proof. simpl. intros H. by destruct s. Qed.

Lemma truthy_JNum z : z <> 0 -> truthy (JNum z) = true.
Proof. simpl. intros H. apply negb_true_iff. by apply Z.eqb_neq. Qed.

(** C1, as the code has it: for a body with non-empty string [firstname] and
    [lastname] and an integer [beds] other than zero, and a store that
    accepts the write, [setName] answers 201 with a body whose [name] is
    [firstname + " " + lastname] and whose [beds] is the number supplied, and
    the record stored bears that name. *)
Theorem setName_creates_cat (castNumber : jsval -> option Z)
    (req : Request) (w : World) (first last : string) (beds : Z) :
  castsIntegers castNumber ->
  validCatBody req first last beds ->
  beds <> 0 ->
  nextFails w = false ->
  createdCat castNumber req w first last beds.
Proof.
  intros Hcast (Hf & Hl & Hb & Hne1 & Hne2) Hz Hup.
  unfold createdCat. rewrite setName_eq.
  rewrite (prop_Some _ _ _ Hf), (prop_Some _ _ _ Hl), (prop_Some _ _ _ Hb).
  rewrite truthy_JStr, truthy_JStr, truthy_JNum by done. simpl.
  rewrite Hcast, Hup. by autorewrite with world.
Qed.

Lemma setName_creates_cat_witness :
  createdCat strictNumber
    (post [("firstname", JStr "Tom"); ("lastname", JStr "Cat"); ("beds", JNum 3)])
    (world [] [] 1000 []) "Tom" "Cat" 3.
Proof.
  apply setName_creates_cat.
  - intros z. reflexivity.
  - repeat split; done.
  - lia.
  - reflexivity.
Defined.

Example setName_tom_cat :
  let w := run (setName strictNumber)
             (post [("firstname", JStr "Tom"); ("lastname", JStr "Cat"); ("beds", JNum 3)])
             (world [] [] 1000 []) in
  sent w = [respond 201 [("name", JStr "Tom Cat"); ("beds", JNum 3)]]
  /\ cats w = [CatDoc.mk "Tom Cat" 3 1000]
  /\ sent (run getName (post []) w) =
       sent w ++ [respond 200 [("name", JStr "Tom Cat")]].
Proof. repeat split. Qed.

(** C1, as the specification words it, fails for zero beds: the body is
    valid for the data model and the store answers, yet [setName] answers
    400 and stores nothing. *)
Lemma setName_zero_beds_rejected :
  validCatBody
    (post [("firstname", JStr "Tom"); ("lastname", JStr "Cat"); ("beds", JNum 0)])
    "Tom" "Cat" 0
  /\ castsIntegers strictNumber
  /\ storeUp (world [] [] 1000 [])
  /\ sent (run (setName strictNumber)
             (post [("firstname", JStr "Tom"); ("lastname", JStr "Cat"); ("beds", JNum 0)])
             (world [] [] 1000 [])) = [missingCatFields]
  /\ cats (run (setName strictNumber)
             (post [("firstname", JStr "Tom"); ("lastname", JStr "Cat"); ("beds", JNum 0)])
             (world [] [] 1000 [])) = []
  /\ ~ createdCat strictNumber
         (post [("firstname", JStr "Tom"); ("lastname", JStr "Cat"); ("beds", JNum 0)])
         (world [] [] 1000 []) "Tom" "Cat" 0.
Proof.
  split; [repeat split; done|].
  split; [intros z; reflexivity|].
  split; [constructor|].
  split; [reflexivity|].
  split; [reflexivity|].
  intros [H _]. discriminate H.
Qed.

(** C4: when [firstname], [lastname] or [beds] is absent from the body,
    [setName] answers 400 with an error body and does nothing else: the
    store is not contacted and the world differs by that response only. *)
Theorem setName_missing_field (castNumber : jsval -> option Z)
    (req : Request) (w : World) :
  body req !! "firstname" = None
  \/ body req !! "lastname" = None
  \/ body req !! "beds" = None ->
  run (setName castNumber) req w = emit (Respond missingCatFields) w
  /\ sent (run (setName castNumber) req w) = sent w ++ [missingCatFields]
  /\ sameStore w (run (setName castNumber) req w)
  /\ outages (run (setName castNumber) req w) = outages w.
Proof.
  intros H.
  assert (run (setName castNumber) req w = emit (Respond missingCatFields) w) as ->.
  { rewrite setName_eq.
    destruct H as [H|[H|H]]; rewrite (prop_None _ _ H); simpl;
      by rewrite ?orb_true_r. }
  autorewrite with world. by repeat split.
Qed.

Lemma setName_missing_field_witness :
  sent (run (setName strictNumber)
          (post [("lastname", JStr "Cat"); ("beds", JNum 3)])
          (world [CatDoc.mk "Old Cat" 1 10] [] 1000 []))
    = [missingCatFields]
  /\ cats (run (setName strictNumber)
             (post [("lastname", JStr "Cat"); ("beds", JNum 3)])
             (world [CatDoc.mk "Old Cat" 1 10] [] 1000 []))
       = [CatDoc.mk "Old Cat" 1 10].
Proof.
  destruct (setName_missing_field strictNumber
              (post [("lastname", JStr "Cat"); ("beds", JNum 3)])
              (world [CatDoc.mk "Old Cat" 1 10] [] 1000 []))
    as (_ & Hs & [Hc _] & _).
  - left. reflexivity.
  - split; [exact Hs | exact Hc].
Defined.

(** C10: the presence checks test truthiness. A body whose [beds] is the
    number 0 makes [setName] answer 400, and a body whose [age] is the number
    0 makes [setDogName] answer 400, whatever the other fields hold; in both
    cases the store is not contacted and nothing is written. *)
Theorem zero_counts_as_missing (castNumber : jsval -> option Z)
    (req : Request) (w : World) :
  (body req !! "beds" = Some (JNum 0) ->
   run (setName castNumber) req w = emit (Respond missingCatFields) w
   /\ sameStore w (run (setName castNumber) req w))
  /\ (body req !! "age" = Some (JNum 0) ->
      run (setDogName castNumber) req w = emit (Respond missingDogFields) w
      /\ sameStore w (run (setDogName castNumber) req w)).
Proof.
  split; intros H.
  - assert (run (setName castNumber) req w = emit (Respond missingCatFields) w) as ->; [|done].
    rewrite setName_eq, (prop_Some _ _ _ H). simpl. by rewrite !orb_true_r.
  - assert (run (setDogName castNumber) req w = emit (Respond missingDogFields) w) as ->; [|done].
    rewrite setDogName_eq, (prop_Some _ _ _ H). simpl. by rewrite !orb_true_r.
Qed.

Lemma zero_counts_as_missing_witness :
  sent (run (setName strictNumber)
          (post [("firstname", JStr "Tom"); ("lastname", JStr "Cat"); ("beds", JNum 0)])
          (world [] [] 1000 [])) = [missingCatFields]
  /\ sent (run (setDogName strictNumber)
             (post [("name", JStr "Rex"); ("breed", JStr "Collie"); ("age", JNum 0)])
             (world [] [] 1000 [])) = [missingDogFields].
Proof.
  split.
  - destruct (zero_counts_as_missing strictNumber
                (post [("firstname", JStr "Tom"); ("lastname", JStr "Cat"); ("beds", JNum 0)])
                (world [] [] 1000 [])) as [[-> _] _]; reflexivity.
  - destruct (zero_counts_as_missing strictNumber
                (post [("name", JStr "Rex"); ("breed", JStr "Collie"); ("age", JNum 0)])
                (world [] [] 1000 [])) as [_ [-> _]]; reflexivity.
Defined.

(** ** Incrementing the beds of the newest cat *)

Lemma updateLast_eq req w :
  run updateLast req w =
    if nextFails w then
      emit (Respond somethingWrong)
        (emit (Console (LogErr StoreError)) (addUnhandled StoreError (spend w)))
    else
      match latest (cats w) with
      | None => addUnhandled (TypeError (ReadOfNull "name")) (spend w)
      | Some (i, c) =>
          emit (Respond (catInfo (CatDoc.incBeds c)))
            (emit (Stored Cats)
               (setCats (<[i := CatDoc.incBeds c]> (cats w)) (spend w)))
      end.
Proof.
  unfold updateLast, Cat_findOneAndUpdate_inc, roundtrip. exec.
  destruct (nextFails w); [done|]. simpl.
  by destruct (latest (cats w)) as [[i c]|].
Qed.



Example updateLast_twice_tom :
  cats (run updateLast (post [])
          (run updateLast (post [])
             (world [CatDoc.mk "Old Cat" 1 10; CatDoc.mk "Tom Cat" 3 20] [] 30 [])))
    = [CatDoc.mk "Old Cat" 1 10; CatDoc.mk "Tom Cat" 5 20].
Proof. reflexivity. Qed.

(** C9: in a store that holds no cat and answers, [updateLast] writes no
    response at all. The continuation given to [then] throws the
    [TypeError] of reading [name] on the null document; that rejection belongs to the promise [then]
    returned, which nobody observes, and the handler given to [catch] on the
    original promise does not run: nothing is logged, nothing is sent. *)
Theorem updateLast_no_cat_no_response (req : Request) (w : World) :
  cats w = [] ->
  nextFails w = false ->
  sent (run updateLast req w) = sent w
  /\ trace (run updateLast req w) = trace w
  /\ unhandled (run updateLast req w) = unhandled w ++ [TypeError (ReadOfNull "name")]
  /\ sameStore w (run updateLast req w).
Proof.
  intros Hnil Hup. rewrite updateLast_eq, Hup, Hnil, latest_nil. by repeat split.
Qed.

Lemma updateLast_no_cat_no_response_witness :
  sent (run updateLast (post []) (world [] [] 30 [])) = []
  /\ unhandled (run updateLast (post []) (world [] [] 30 []))
     = [TypeError (ReadOfNull "name")].
Proof.
  destruct (updateLast_no_cat_no_response (post []) (world [] [] 30 []))
    as (Hs & _ & Hu & _); [reflexivity | reflexivity |].
  split; [exact Hs | exact Hu].
Defined.

(** ** Adding one to an age *)

Lemma toDouble_exact x : Z.abs x <= 2 ^ 53 -> toDouble x = x.
Proof.
  intros H. unfold toDouble.
  destruct (Z.ltb_spec (Z.abs x) (2 ^ 53)) as [|Hge]; [done|].
  assert (x = 2 ^ 53 \/ x = - 2 ^ 53) as [-> | ->] by lia; by vm_compute.
Qed.

Lemma jsAdd_safe a : safeAge a -> jsAdd a 1 = a + 1.
Proof.
  unfold safeAge, jsAdd. intros H. apply toDouble_exact. lia.
Qed.

Lemma older_safe d :
  safeAge (DogDoc.age d) ->
  older d = DogDoc.mk (DogDoc.name d) (DogDoc.breed d) (DogDoc.age d + 1).
Proof.
  intros H. unfold older, DogDoc.setAge. by rewrite (jsAdd_safe _ H).
Qed.

(** ** Searching *)

Section Searching.

Variable nameFilter : jsval -> option (string -> bool).

Lemma searchDogName_eq req w :
  run (searchDogName nameFilter) req w =
    if negb (truthy (prop (body req) "dogname")) then
      emit (Respond nameRequired) (emit (Console (LogModel Dogs)) w)
    else
      match nameFilter (prop (body req) "dogname") with
      | None => failedWith CastError w
      | Some p =>
          if nextFails w then failedWith StoreError (spend w)
          else
            match list_find (fun d => p (DogDoc.name d) = true) (dogs w) with
            | None => failedWith (TypeError (ReadOfNull "age")) (spend w)
            | Some (i, d) =>
                if nextFails (spend w) then failedWith StoreError (spend (spend w))
                else if Z.eqb (jsAdd (DogDoc.age d) 1) (DogDoc.age d) then
                  emit (Respond (dogInfo (older d))) (spend (spend w))
                else
                  emit (Respond (dogInfo (older d)))
                    (emit (Stored Dogs)
                       (setDogs (<[i := older d]> (dogs w)) (spend (spend w))))
            end
      end.
Proof.
  unfold searchDogName, Dog_findOne, age_incr, Dog_doc_save, roundtrip. exec.
  destruct (negb _); [done|].
  destruct (nameFilter _) as [p|]; [|done]. simpl.
  destruct (nextFails w); [done|]. simpl.
  destruct (list_find _ _) as [[i d]|]; [|done]. simpl.
  destruct (nextFails (spend w)); [done|].
  by destruct (Z.eqb _ _).
Qed.

Lemma searchName_eq req w :
  run (searchName nameFilter) req w =
    if negb (truthy (prop (query req) "name")) then emit (Respond nameRequired) w
    else
      match nameFilter (prop (query req) "name") with
      | None => failedWith CastError w
      | Some p =>
          if nextFails w then failedWith StoreError (spend w)
          else
            match list_find (fun c => p (CatDoc.name c) = true) (cats w) with
            | None =>
                emit (Respond (respond 404 [("error", JStr "No cats found")])) (spend w)
            | Some (_, c) => emit (Respond (catInfo c)) (spend w)
            end
      end.
Proof.
  unfold searchName, Cat_findOne, roundtrip. exec.
  destruct (negb _); [done|].
  destruct (nameFilter _) as [p|]; [|done]. simpl.
  destruct (nextFails w); [done|]. simpl.
  by destruct (list_find _ _) as [[i c]|].
Qed.


(** C8, as the code has it: a [dogname] that passes the handler's check,
    that is a truthy one, and that matches no stored dog makes
    [searchDogName] log an exception and answer 500 with an error body,
    never 404, without touching the records; when the query itself went
    through, the exception is the [TypeError] of reading [age] on the null
    result, thrown by [doc.age += 1] before [doc.save()] is reached.
    Whatever the request and the world, the one response of
    [searchDogName] is never a 404: the "No dog found" branch cannot be
    reached. *)
Theorem searchDogName_no_match_is_500 (req : Request) (w : World) :
  (truthy (prop (body req) "dogname") = true ->
   (forall p, nameFilter (prop (body req) "dogname") = Some p ->
              Forall (fun d => p (DogDoc.name d) = false) (dogs w)) ->
   exists e,
     trace (run (searchDogName nameFilter) req w) =
       trace w ++ [Console (LogErr e); Respond somethingWrong]
     /\ sameStore w (run (searchDogName nameFilter) req w)
     /\ (is_Some (nameFilter (prop (body req) "dogname")) ->
         nextFails w = false -> e = TypeError (ReadOfNull "age")))
  /\ exists r,
       sent (run (searchDogName nameFilter) req w) = sent w ++ [r]
       /\ status r <> 404.
Proof.
  rewrite searchDogName_eq. split.
  - intros -> Hnone. simpl negb. cbv iota.
    destruct (nameFilter _) as [p|].
    + destruct (nextFails w) eqn:Hf.
      * exists StoreError. unfold failedWith. simpl. rewrite <- app_assoc.
        by repeat split.
      * assert (list_find (fun d => p (DogDoc.name d) = true) (dogs w) = None) as ->.
        { apply list_find_None. eapply Forall_impl; [by apply Hnone|].
          simpl. intros d ->. discriminate. }
        exists (TypeError (ReadOfNull "age")). unfold failedWith. simpl.
        rewrite <- app_assoc.
        by repeat split.
    + exists CastError. unfold failedWith. simpl. rewrite <- app_assoc.
      by repeat split.
  - unfold failedWith. repeat case_match;
      eexists; autorewrite with world; (split; [reflexivity|done]).
Qed.

End Searching.



Example searchDogName_rex :
  let w := run (searchDogName strictName) (post [("dogname", JStr "Rex")])
             (world [] [DogDoc.mk "Fido" "Pug" 2; DogDoc.mk "Rex" "Collie" 4;
                         DogDoc.mk "Rex" "Lab" 7] 30 []) in
  dogs w = [DogDoc.mk "Fido" "Pug" 2; DogDoc.mk "Rex" "Collie" 5; DogDoc.mk "Rex" "Lab" 7]
  /\ trace w = [Stored Dogs; Respond (dogInfo (DogDoc.mk "Rex" "Collie" 5))].
Proof. split; reflexivity. Qed.

Lemma searchDogName_no_match_is_500_witness :
  exists e,
    trace (run (searchDogName strictName) (post [("dogname", JStr "Ghost")])
             (world [] [DogDoc.mk "Rex" "Collie" 4] 30 []))
      = [Console (LogErr e); Respond somethingWrong]
    /\ e = TypeError (ReadOfNull "age").
Proof.
  destruct (searchDogName_no_match_is_500 strictName (post [("dogname", JStr "Ghost")])
              (world [] [DogDoc.mk "Rex" "Collie" 4] 30 [])) as [H _].
  destruct H as (e & Ht & _ & He).
  - reflexivity.
  - intros p Hp. injection Hp as <-. repeat constructor.
  - exists e. split; [exact Ht|]. apply He; [by eexists | reflexivity].
Defined.

(** C8, as the specification words it, fails for a [dogname] that is there
    but falsy: the empty string is present in the body and names no stored
    dog, yet [searchDogName] answers 400, not 500, and the store is not
    contacted. *)
Lemma searchDogName_empty_name_is_400 :
  body (post [("dogname", JStr "")]) !! "dogname" = Some (JStr "")
  /\ (forall p, strictName (JStr "") = Some p ->
                Forall (fun d => p (DogDoc.name d) = false) [DogDoc.mk "Rex" "Collie" 4])
  /\ trace (run (searchDogName strictName) (post [("dogname", JStr "")])
              (world [] [DogDoc.mk "Rex" "Collie" 4] 30 []))
     = [Console (LogModel Dogs); Respond nameRequired]
  /\ status nameRequired = 400.
Proof.
  split; [reflexivity|].
  split; [intros p [= <-]; by repeat constructor|].
  split; reflexivity.
Qed.

(** ** The routes and the invariant on names *)

Lemma namesKept_same w w' : sameStore w w' -> namesKept w w'.
Proof.
  intros [Hc Hd]. exists [], []. rewrite Hc, Hd, !app_nil_r. by repeat split.
Qed.

Lemma Forall_names {A} (f : A -> string) (l : list A) :
  Forall (fun x => f x <> "") l <-> Forall (fun n => n <> "") (f <$> l).
Proof. by rewrite Forall_fmap. Qed.

Lemma namesKept_invariant w w' : namesKept w w' -> namesNonEmpty w -> namesNonEmpty w'.
Proof.
  intros (nc & nd & Hc & Hd & Hnc & Hnd) [Ic Id].
  apply (proj1 (Forall_names _ _)) in Ic, Id.
  split; apply (proj2 (Forall_names _ _)).
  - rewrite Hc. by apply Forall_app.
  - rewrite Hd. by apply Forall_app.
Qed.

Lemma required_non_empty s : required s = true -> s <> "".
Proof. unfold required. intros H ->. discriminate. Qed.

Lemma fmap_insert_same_name {A} (f : A -> string) (l : list A) i x y :
  l !! i = Some x -> f y = f x -> f <$> <[i := y]> l = f <$> l.
Proof.
  intros Hi Hf. rewrite list_fmap_insert, Hf.
  apply list_insert_id. by rewrite list_lookup_fmap, Hi.
Qed.

Lemma namesKept_route castNumber nameFilter (r : route) (req : Request) (w : World) :
  namesKept w (run (exports castNumber nameFilter r) req w).
Proof.
  destruct r; simpl.
  - destruct (nextFails w) eqn:Hf;
      [rewrite hostIndex_down by done | rewrite hostIndex_ok by done];
      by apply namesKept_same.
  - unfold hostPage1, Cat_find, roundtrip. exec.
    destruct (nextFails w); by apply namesKept_same.
  - by apply namesKept_same.
  - by apply namesKept_same.
  - unfold hostPage4, Dog_find, roundtrip. exec.
    destruct (nextFails w); by apply namesKept_same.
  - destruct (nextFails w) eqn:Hf;
      [rewrite getName_down by done | rewrite getName_ok by done];
      by apply namesKept_same.
  - rewrite setName_eq.
    destruct (_ || _); [by apply namesKept_same|].
    destruct (to_string (prop (body req) "firstname")) as [first|];
      [|by apply namesKept_same].
    destruct (to_string (prop (body req) "lastname")) as [last|];
      [|by apply namesKept_same].
    destruct (castNumber _) as [beds|]; [|by apply namesKept_same].
    destruct (nextFails w); [by apply namesKept_same|].
    eexists [_], []. simpl. rewrite fmap_app, app_nil_r. simpl.
    repeat split; [|done]. repeat constructor.
    apply required_non_empty, required_full_name.
  - rewrite updateLast_eq.
    destruct (nextFails w); [by apply namesKept_same|].
    destruct (latest (cats w)) as [[i c]|] eqn:Hl; [|by apply namesKept_same].
    apply latest_Some in Hl as [Hi _].
    exists [], []. simpl. rewrite !app_nil_r.
    by rewrite (fmap_insert_same_name _ _ _ c).
  - rewrite searchName_eq. unfold failedWith.
    destruct (negb _); [by apply namesKept_same|].
    destruct (nameFilter _) as [p|]; [|by apply namesKept_same].
    destruct (nextFails w); [by apply namesKept_same|].
    destruct (list_find _ _) as [[i c]|]; by apply namesKept_same.
  - rewrite setDogName_eq.
    destruct (_ || _); [by apply namesKept_same|].
    destruct (to_string (prop (body req) "name")) as [name|];
      [|by apply namesKept_same].
    destruct (to_string (prop (body req) "breed")) as [breed|];
      [|by apply namesKept_same].
    destruct (castNumber _) as [age|]; [|by apply namesKept_same].
    destruct (required name) eqn:Hreq; [|by apply namesKept_same].
    destruct (required breed); [|by apply namesKept_same].
    simpl. destruct (nextFails w); [by apply namesKept_same|].
    eexists [], [_]. simpl. rewrite fmap_app, app_nil_r. simpl.
    repeat split; [done|]. repeat constructor. by apply required_non_empty.
  - rewrite searchDogName_eq. unfold failedWith.
    destruct (negb _); [by apply namesKept_same|].
    destruct (nameFilter _) as [p|]; [|by apply namesKept_same].
    destruct (nextFails w); [by apply namesKept_same|].
    destruct (list_find _ _) as [[i d]|] eqn:Hfind; [|by apply namesKept_same].
    destruct (nextFails (spend w)); [by apply namesKept_same|].
    destruct (Z.eqb _ _); [by apply namesKept_same|].
    apply list_find_Some in Hfind as (Hi & _).
    exists [], []. simpl. rewrite !app_nil_r.
    by rewrite (fmap_insert_same_name _ _ _ d).
  - by apply namesKept_same.
Qed.

Lemma serve_keeps_names castNumber nameFilter (arrivals : list arrival) (w : World) :
  namesNonEmpty w -> namesNonEmpty (serve castNumber nameFilter arrivals w).
Proof.
  unfold serve. revert w. induction arrivals as [|a l IH]; intros w Hw; [done|].
  simpl. apply IH.
  eapply namesKept_invariant; [apply namesKept_route|]. exact Hw.
Qed.

(** C7: every stored record has a non-empty name, and every exported
    handler keeps it so. Whatever the request, the world and the casts of
    the store library, a handler leaves the names of the records already
    stored as they are, and the records it adds ([setName] and [setDogName]
    are the only ones that add any) have non-empty names; therefore a store
    whose names are all non-empty is still one afterwards, and so is every
    store the server reaches from the empty one. *)
Theorem names_stay_non_empty (castNumber : jsval -> option Z)
    (nameFilter : jsval -> option (string -> bool))
    (r : route) (req : Request) (w : World) (arrivals : list arrival) :
  namesKept w (run (exports castNumber nameFilter r) req w)
  /\ (namesNonEmpty w -> namesNonEmpty (run (exports castNumber nameFilter r) req w))
  /\ namesNonEmpty (serve castNumber nameFilter arrivals (world [] [] 0 [])).
Proof.
  split; [apply namesKept_route|].
  split; [apply namesKept_invariant, namesKept_route|].
  apply serve_keeps_names. by split.
Qed.

Lemma names_stay_non_empty_witness :
  namesNonEmpty
    (run (exports strictNumber strictName SetDogName)
       (post [("name", JArr []); ("breed", JStr "Collie"); ("age", JNum 4)])
       (world [CatDoc.mk "Tom Cat" 3 20] [DogDoc.mk "Rex" "Lab" 7] 30 []))
  /\ namesNonEmpty
       (serve strictNumber strictName
          [{| via := SetName;
              request := post [("firstname", JArr []); ("lastname", JArr []);
                               ("beds", JNum 2)];
              now := 10; faults := [] |};
           {| via := SetDogName;
              request := post [("name", JNum 7); ("breed", JBool true); ("age", JNum 1)];
              now := 20; faults := [] |};
           {| via := UpdateLast; request := post []; now := 30; faults := [] |}]
          (world [] [] 0 [])).
Proof.
  split.
  - apply (names_stay_non_empty strictNumber strictName SetDogName _ _ []).
    split; simpl; repeat constructor; discriminate.
  - apply (names_stay_non_empty strictNumber strictName Index (post []) (world [] [] 0 [])).
Defined.

Example empty_array_name_is_refused :
  trace (run (setDogName strictNumber)
           (post [("name", JArr []); ("breed", JStr "Collie"); ("age", JNum 4)])
           (world [] [] 30 []))
    = [Console (LogErr ValidationError);
       Respond (respond 500 [("error", JStr "failed to create dog")])].
Proof. reflexivity. Qed.

Example serve_three_arrivals :
  cats (serve strictNumber strictName
          [{| via := SetName;
              request := post [("firstname", JStr "Tom"); ("lastname", JStr "Cat");
                               ("beds", JNum 3)];
              now := 10; faults := [] |};
           {| via := UpdateLast; request := post []; now := 20; faults := [] |};
           {| via := UpdateLast; request := post []; now := 30; faults := [true] |}]
          (world [] [] 0 []))
    = [CatDoc.mk "Tom Cat" 4 10].
Proof. reflexivity. Qed.

(** * Further properties of the handlers *)

(** ** Closed forms of the remaining handlers *)

Lemma hostIndex_eq req w :
  run hostIndex req w =
    if nextFails w then
      emit (Respond (homePage "unknown")) (emit (Console (LogErr StoreError)) (spend w))
    else
      emit (Respond (homePage (match latest (cats w) with
                               | Some (_, c) => CatDoc.name c
                               | None => "unknown"
                               end))) (spend w).
Proof.
  destruct (nextFails w) eqn:Hf; [by apply hostIndex_down | by apply hostIndex_ok].
Qed.

Lemma getName_eq req w :
  run getName req w =
    if nextFails w then
      emit (Respond (respond 500
                       [("error", JStr "Something went wrong contacting the database")]))
        (emit (Console (LogErr StoreError)) (spend w))
    else
      emit (Respond (match latest (cats w) with
                     | Some (_, c) => respond 200 [("name", JStr (CatDoc.name c))]
                     | None => respond 404 [("error", JStr "No cat found")]
                     end)) (spend w).
Proof.
  destruct (nextFails w) eqn:Hf; [by apply getName_down | by apply getName_ok].
Qed.

Lemma hostPage1_eq req w :
  run hostPage1 req w =
    if nextFails w then
      emit (Respond (respond 500 [("error", JStr "failed to find cats")]))
        (emit (Console (LogErr StoreError)) (spend w))
    else
      emit (Respond {| status := 200; content := Render "page1" (CatList (cats w)) |})
        (spend w).
Proof.
  unfold hostPage1, Cat_find, roundtrip. exec. by destruct (nextFails w).
Qed.

Lemma hostPage4_eq req w :
  run hostPage4 req w =
    if nextFails w then
      emit (Respond (respond 500 [("error", JStr "failed to find dogs")]))
        (emit (Console (LogErr StoreError)) (spend w))
    else
      emit (Respond {| status := 200; content := Render "page4" (DogList (dogs w)) |})
        (spend w).
Proof.
  unfold hostPage4, Dog_find, roundtrip. exec. by destruct (nextFails w).
Qed.

Lemma hostPage2_eq req w :
  run hostPage2 req w =
    emit (Respond {| status := 200; content := Render "page2" NoLocals |}) w.
Proof. reflexivity. Qed.

Lemma hostPage3_eq req w :
  run hostPage3 req w =
    emit (Respond {| status := 200; content := Render "page3" NoLocals |}) w.
Proof. reflexivity. Qed.

Lemma notFound_eq req w :
  run notFound req w =
    emit (Respond {| status := 404;
                     content := Render "notFound" (NotFoundLocals (url req)) |}) w.
Proof. reflexivity. Qed.

(** Every route in closed form, ready for a case analysis. *)
Ltac closed_form :=
  simpl exports;
  rewrite ?hostIndex_eq, ?getName_eq, ?hostPage1_eq, ?hostPage4_eq, ?setName_eq,
    ?setDogName_eq, ?updateLast_eq, ?searchName_eq, ?searchDogName_eq,
    ?hostPage2_eq, ?hostPage3_eq, ?notFound_eq;
  unfold failedWith.

(** ** Searching a cat by name *)

(** X1: for a query whose [name] is the non-empty name of a stored cat, in a
    store that answers, [searchName] answers 200 with the name and the beds
    of the first cat of that name, writes nothing else to the trace and
    leaves the records as they are. *)
Theorem searchName_finds_first (nameFilter : jsval -> option (string -> bool))
    (req : Request) (w : World) (s : string) :
  filtersByEquality nameFilter ->
  query req !! "name" = Some (JStr s) ->
  s <> "" ->
  (exists c, c ∈ cats w /\ CatDoc.name c = s) ->
  nextFails w = false ->
  exists i c,
    cats w !! i = Some c
    /\ CatDoc.name c = s
    /\ (forall j c', (j < i)%nat -> cats w !! j = Some c' -> CatDoc.name c' <> s)
    /\ trace (run (searchName nameFilter) req w) =
         trace w ++ [Respond (respond 200 [("name", JStr (CatDoc.name c));
                                           ("beds", JNum (CatDoc.bedsOwned c))])]
    /\ sameStore w (run (searchName nameFilter) req w).
Proof.
  intros Hfilter Hq Hs (c0 & Hin & Hname) Hup.
  destruct (list_find_elem_of (fun c => String.eqb s (CatDoc.name c) = true) (cats w) c0)
    as [[i c] Hfind]; [done | by apply String.eqb_eq |].
  pose proof Hfind as (Hi & Hc & Hfirst)%list_find_Some.
  apply String.eqb_eq in Hc.
  exists i, c. rewrite searchName_eq, (prop_Some _ _ _ Hq).
  rewrite truthy_JStr by done. simpl negb. cbv iota.
  rewrite Hfilter, Hup, Hfind.
  repeat split; try done.
  intros j c' Hj Hc' Heq. by apply (Hfirst j c' Hc' Hj), String.eqb_eq.
Qed.

Lemma searchName_finds_first_witness :
  exists i c,
    [CatDoc.mk "Tom Cat" 3 10; CatDoc.mk "Old Cat" 1 20; CatDoc.mk "Old Cat" 9 30] !! i
      = Some c
    /\ trace (run (searchName strictName) (get [("name", JStr "Old Cat")])
                (world [CatDoc.mk "Tom Cat" 3 10; CatDoc.mk "Old Cat" 1 20;
                        CatDoc.mk "Old Cat" 9 30] [] 40 []))
       = [Respond (respond 200 [("name", JStr (CatDoc.name c));
                                ("beds", JNum (CatDoc.bedsOwned c))])].
Proof.
  destruct (searchName_finds_first strictName (get [("name", JStr "Old Cat")])
              (world [CatDoc.mk "Tom Cat" 3 10; CatDoc.mk "Old Cat" 1 20;
                      CatDoc.mk "Old Cat" 9 30] [] 40 []) "Old Cat")
    as (i & c & Hi & _ & _ & Ht & _).
  - intros s. reflexivity.
  - reflexivity.
  - discriminate.
  - exists (CatDoc.mk "Old Cat" 9 30). split; [|reflexivity].
    simpl. apply list_elem_of_further, list_elem_of_further, list_elem_of_here.
  - reflexivity.
  - exists i, c. split; [exact Hi | exact Ht].
Defined.

Example searchName_old_cat :
  sent (run (searchName strictName) (get [("name", JStr "Old Cat")])
          (world [CatDoc.mk "Tom Cat" 3 10; CatDoc.mk "Old Cat" 1 20;
                  CatDoc.mk "Old Cat" 9 30] [] 40 []))
    = [respond 200 [("name", JStr "Old Cat"); ("beds", JNum 1)]].
Proof. reflexivity. Qed.

(** X2: for a query whose [name] is a non-empty string that no stored cat
    bears, in a store that answers, [searchName] answers 404 with an error
    body, logs nothing and leaves the records as they are: unlike the search
    for a dog, the null result is tested before it is read. *)
Theorem searchName_no_match_is_404 (nameFilter : jsval -> option (string -> bool))
    (req : Request) (w : World) (s : string) :
  filtersByEquality nameFilter ->
  query req !! "name" = Some (JStr s) ->
  s <> "" ->
  Forall (fun c => CatDoc.name c <> s) (cats w) ->
  nextFails w = false ->
  trace (run (searchName nameFilter) req w) =
    trace w ++ [Respond (respond 404 [("error", JStr "No cats found")])]
  /\ sameStore w (run (searchName nameFilter) req w).
Proof.
  intros Hfilter Hq Hs Hnone Hup.
  rewrite searchName_eq, (prop_Some _ _ _ Hq).
  rewrite truthy_JStr by done. simpl negb. cbv iota.
  rewrite Hfilter, Hup.
  assert (list_find (fun c => String.eqb s (CatDoc.name c) = true) (cats w) = None) as ->.
  { apply list_find_None. eapply Forall_impl; [exact Hnone|].
    simpl. intros c Hc Heq. by apply Hc, eq_sym, String.eqb_eq. }
  by repeat split.
Qed.

Lemma searchName_no_match_is_404_witness :
  trace (run (searchName strictName) (get [("name", JStr "Ghost")])
           (world [CatDoc.mk "Tom Cat" 3 10] [DogDoc.mk "Ghost" "Husky" 2] 40 []))
    = [Respond (respond 404 [("error", JStr "No cats found")])].
Proof.
  apply (searchName_no_match_is_404 strictName (get [("name", JStr "Ghost")])
           (world [CatDoc.mk "Tom Cat" 3 10] [DogDoc.mk "Ghost" "Husky" 2] 40 []) "Ghost").
  - intros s. reflexivity.
  - reflexivity.
  - discriminate.
  - repeat constructor. discriminate.
  - reflexivity.
Defined.

(** X3: a search without a name is refused before the store is contacted.
    When the query has no [name], or an empty one, [searchName] answers 400
    and does nothing else; when the body has no [dogname], or an empty one,
    [searchDogName] prints the Dog model to the console, answers 400 and
    does nothing else. *)
Theorem search_without_name_is_400 (nameFilter : jsval -> option (string -> bool))
    (req : Request) (w : World) :
  (query req !! "name" = None \/ query req !! "name" = Some (JStr "") ->
   run (searchName nameFilter) req w = emit (Respond nameRequired) w)
  /\ (body req !! "dogname" = None \/ body req !! "dogname" = Some (JStr "") ->
      run (searchDogName nameFilter) req w =
        emit (Respond nameRequired) (emit (Console (LogModel Dogs)) w)).
Proof.
  split.
  - intros [H|H]; rewrite searchName_eq;
      [rewrite (prop_None _ _ H) | rewrite (prop_Some _ _ _ H)]; reflexivity.
  - intros [H|H]; rewrite searchDogName_eq;
      [rewrite (prop_None _ _ H) | rewrite (prop_Some _ _ _ H)]; reflexivity.
Qed.

Lemma search_without_name_is_400_witness :
  trace (run (searchName strictName) (get [])
           (world [CatDoc.mk "Tom Cat" 3 10] [] 40 [true]))
    = [Respond nameRequired]
  /\ outages (run (searchDogName strictName) (post [("dogname", JStr "")])
                (world [] [DogDoc.mk "Rex" "Lab" 7] 40 [true]))
     = [true].
Proof.
  split.
  - rewrite (proj1 (search_without_name_is_400 strictName (get [])
                      (world [CatDoc.mk "Tom Cat" 3 10] [] 40 [true])));
      [reflexivity | left; reflexivity].
  - rewrite (proj2 (search_without_name_is_400 strictName (post [("dogname", JStr "")])
                      (world [] [DogDoc.mk "Rex" "Lab" 7] 40 [true])));
      [reflexivity | right; reflexivity].
Defined.

(** ** Creating a dog, and creations the store refuses *)

Lemma validDogBody_passes req name breed age :
  validDogBody req name breed age ->
  prop (body req) "name" = JStr name
  /\ prop (body req) "breed" = JStr breed
  /\ prop (body req) "age" = JNum age
  /\ negb (truthy (JStr name)) || negb (truthy (JStr breed)) || negb (truthy (JNum age))
     = false
  /\ required name && required breed = true.
Proof.
  intros (Hn & Hb & Ha & Hne1 & Hne2 & Hz).
  rewrite (prop_Some _ _ _ Hn), (prop_Some _ _ _ Hb), (prop_Some _ _ _ Ha).
  rewrite !truthy_JStr, truthy_JNum by done.
  repeat split. unfold required. by destruct name, breed.
Qed.

Lemma validCatBody_passes req first last beds :
  validCatBody req first last beds ->
  beds <> 0 ->
  prop (body req) "firstname" = JStr first
  /\ prop (body req) "lastname" = JStr last
  /\ prop (body req) "beds" = JNum beds
  /\ negb (truthy (JStr first)) || negb (truthy (JStr last)) || negb (truthy (JNum beds))
     = false.
Proof.
  intros (Hf & Hl & Hb & Hne1 & Hne2) Hz.
  rewrite (prop_Some _ _ _ Hf), (prop_Some _ _ _ Hl), (prop_Some _ _ _ Hb).
  rewrite !truthy_JStr, truthy_JNum by done. by repeat split.
Qed.

(** X4: for a body with non-empty string [name] and [breed] and an integer
    [age] other than zero, and a store that accepts the write, [setDogName]
    appends a dog with those three values to the collection and then
    answers 201 with them; the cats are not touched. *)
Theorem setDogName_creates_dog (castNumber : jsval -> option Z)
    (req : Request) (w : World) (name breed : string) (age : Z) :
  castsIntegers castNumber ->
  validDogBody req name breed age ->
  nextFails w = false ->
  trace (run (setDogName castNumber) req w) =
    trace w ++ [Stored Dogs;
                Respond (respond 201 [("name", JStr name); ("breed", JStr breed);
                                      ("age", JNum age)])]
  /\ dogs (run (setDogName castNumber) req w) = dogs w ++ [DogDoc.mk name breed age]
  /\ cats (run (setDogName castNumber) req w) = cats w.
Proof.
  intros Hcast Hvalid Hup.
  destruct (validDogBody_passes _ _ _ _ Hvalid) as (Hn & Hb & Ha & Hguard & Hreq).
  rewrite setDogName_eq, Hn, Hb, Ha, Hguard, Hcast. simpl to_string. cbv iota.
  rewrite Hreq, Hup. simpl. rewrite <- app_assoc. by repeat split.
Qed.

Lemma setDogName_creates_dog_witness :
  dogs (run (setDogName strictNumber)
          (post [("name", JStr "Rex"); ("breed", JStr "Collie"); ("age", JNum 4)])
          (world [] [DogDoc.mk "Fido" "Pug" 2] 30 []))
    = [DogDoc.mk "Fido" "Pug" 2; DogDoc.mk "Rex" "Collie" 4].
Proof.
  apply (setDogName_creates_dog strictNumber
           (post [("name", JStr "Rex"); ("breed", JStr "Collie"); ("age", JNum 4)])
           (world [] [DogDoc.mk "Fido" "Pug" 2] 30 []) "Rex" "Collie" 4).
  - intros z. reflexivity.
  - repeat split; (reflexivity || discriminate).
  - reflexivity.
Defined.

(** X5: when the store fails on the write, a creation that passed the
    handler's check is answered 500 and leaves no record behind: [setName]
    and [setDogName] log the error, answer with their generic message, and
    both collections are as before (a round trip that fails changes nothing
    in the store). *)
Theorem creation_refused_by_store (castNumber : jsval -> option Z)
    (req : Request) (w : World) :
  castsIntegers castNumber ->
  nextFails w = true ->
  (forall first last beds,
     validCatBody req first last beds -> beds <> 0 ->
     trace (run (setName castNumber) req w) =
       trace w ++ [Console (LogErr StoreError);
                   Respond (respond 500 [("error", JStr "failed to create cat")])]
     /\ sameStore w (run (setName castNumber) req w))
  /\ (forall name breed age,
        validDogBody req name breed age ->
        trace (run (setDogName castNumber) req w) =
          trace w ++ [Console (LogErr StoreError);
                      Respond (respond 500 [("error", JStr "failed to create dog")])]
        /\ sameStore w (run (setDogName castNumber) req w)).
Proof.
  intros Hcast Hdown. split.
  - intros first last beds Hvalid Hz.
    destruct (validCatBody_passes _ _ _ _ Hvalid Hz) as (Hf & Hl & Hb & Hguard).
    rewrite setName_eq, Hf, Hl, Hb, Hguard, Hcast, Hdown.
    simpl. rewrite <- app_assoc. by repeat split.
  - intros name breed age Hvalid.
    destruct (validDogBody_passes _ _ _ _ Hvalid) as (Hn & Hb & Ha & Hguard & Hreq).
    rewrite setDogName_eq, Hn, Hb, Ha, Hguard, Hcast. simpl to_string. cbv iota.
    rewrite Hreq, Hdown. simpl. rewrite <- app_assoc. by repeat split.
Qed.

Lemma creation_refused_by_store_witness :
  cats (run (setName strictNumber)
          (post [("firstname", JStr "Tom"); ("lastname", JStr "Cat"); ("beds", JNum 3)])
          (world [CatDoc.mk "Old Cat" 1 10] [] 30 [true]))
    = [CatDoc.mk "Old Cat" 1 10]
  /\ sent (run (setName strictNumber)
             (post [("firstname", JStr "Tom"); ("lastname", JStr "Cat"); ("beds", JNum 3)])
             (world [CatDoc.mk "Old Cat" 1 10] [] 30 [true]))
     = [respond 500 [("error", JStr "failed to create cat")]].
Proof.
  destruct (creation_refused_by_store strictNumber
              (post [("firstname", JStr "Tom"); ("lastname", JStr "Cat"); ("beds", JNum 3)])
              (world [CatDoc.mk "Old Cat" 1 10] [] 30 [true])) as [Hcat _].
  - intros z. reflexivity.
  - reflexivity.
  - destruct (Hcat "Tom" "Cat" 3) as [Ht [Hc _]].
    + repeat split; (reflexivity || discriminate).
    + lia.
    + split; [exact Hc|]. unfold sent. rewrite Ht. reflexivity.
Defined.

(** ** A failing update *)

(** X6: when the store fails on the update, [updateLast] logs the error and
    answers 500 from the handler given to [catch], and the records are as
    before; the promise returned by [then], which is rejected with the same
    error and which nobody observes, leaves one unhandled rejection. *)
Theorem updateLast_store_failure (req : Request) (w : World) :
  nextFails w = true ->
  trace (run updateLast req w) =
    trace w ++ [Console (LogErr StoreError); Respond somethingWrong]
  /\ sameStore w (run updateLast req w)
  /\ unhandled (run updateLast req w) = unhandled w ++ [StoreError].
Proof.
  intros Hdown. rewrite updateLast_eq, Hdown. simpl.
  rewrite <- app_assoc. by repeat split.
Qed.

Lemma updateLast_store_failure_witness :
  trace (run updateLast (post []) (world [CatDoc.mk "Tom Cat" 3 20] [] 30 [true]))
    = [Console (LogErr StoreError); Respond somethingWrong]
  /\ unhandled (run updateLast (post []) (world [CatDoc.mk "Tom Cat" 3 20] [] 30 [true]))
     = [StoreError].
Proof.
  destruct (updateLast_store_failure (post [])
              (world [CatDoc.mk "Tom Cat" 3 20] [] 30 [true])) as (Ht & _ & Hu);
    [reflexivity|].
  split; [exact Ht | exact Hu].
Defined.

(** ** One call after another *)



(** Replacing the first element that satisfies [P] by another that does
    leaves it the first. *)
Lemma list_find_insert_same {A} (P : A -> Prop) `{forall x, Decision (P x)}
    (l : list A) i x y :
  list_find P l = Some (i, x) -> P y -> list_find P (<[i := y]> l) = Some (i, y).
Proof.
  intros (Hi & Hx & Hfirst)%list_find_Some Hy. apply list_find_Some.
  split; [|split; [done|]].
  - apply list_lookup_insert_eq. by eapply lookup_lt_Some.
  - intros j z Hj Hlt. rewrite list_lookup_insert_ne in Hj by lia.
    by eapply Hfirst.
Qed.

Lemma setName_ok castNumber req w first last beds :
  castsIntegers castNumber ->
  validCatBody req first last beds ->
  beds <> 0 ->
  nextFails w = false ->
  run (setName castNumber) req w =
    emit (Respond (respond 201 [("name", JStr (first +:+ " " +:+ last));
                                ("beds", JNum beds)]))
      (emit (Stored Cats)
         (setCats (cats w ++ [CatDoc.mk (first +:+ " " +:+ last) beds (clock w)])
            (spend w))).
Proof.
  intros Hcast Hvalid Hz Hup.
  destruct (validCatBody_passes _ _ _ _ Hvalid Hz) as (Hf & Hl & Hb & Hguard).
  by rewrite setName_eq, Hf, Hl, Hb, Hguard, Hcast, Hup.
Qed.

Lemma setDogName_ok castNumber req w name breed age :
  castsIntegers castNumber ->
  validDogBody req name breed age ->
  nextFails w = false ->
  run (setDogName castNumber) req w =
    emit (Respond (respond 201 [("name", JStr name); ("breed", JStr breed);
                                ("age", JNum age)]))
      (emit (Stored Dogs) (setDogs (dogs w ++ [DogDoc.mk name breed age]) (spend w))).
Proof.
  intros Hcast Hvalid Hup.
  destruct (validDogBody_passes _ _ _ _ Hvalid) as (Hn & Hb & Ha & Hguard & Hreq).
  rewrite setDogName_eq, Hn, Hb, Ha, Hguard, Hcast. simpl to_string. cbv iota.
  by rewrite Hreq, Hup.
Qed.



(** With equal dates the store, as modelled, keeps the cat stored first as the
    newest: the hypothesis on the clock above is used. *)
Example created_cat_same_date :
  sent (run getName (post [])
          (run (setName strictNumber)
             (post [("firstname", JStr "Tom"); ("lastname", JStr "Cat"); ("beds", JNum 3)])
             (world [CatDoc.mk "Old Cat" 1 30] [] 30 [])))
    = [respond 201 [("name", JStr "Tom Cat"); ("beds", JNum 3)];
       respond 200 [("name", JStr "Old Cat")]].
Proof. reflexivity. Qed.

(** X8: a record just created is on the list page that follows. After a
    successful [setName], [hostPage1] renders the cats stored before
    followed by the new cat; after a successful [setDogName], [hostPage4]
    renders the dogs stored before followed by the new dog. *)
Theorem created_records_are_listed (castNumber : jsval -> option Z)
    (req next : Request) (w : World) :
  castsIntegers castNumber ->
  storeUp w ->
  (forall first last beds,
     validCatBody req first last beds -> beds <> 0 ->
     sent (run hostPage1 next (run (setName castNumber) req w)) =
       sent (run (setName castNumber) req w)
         ++ [{| status := 200;
                content := Render "page1"
                             (CatList (cats w ++ [CatDoc.mk (first +:+ " " +:+ last)
                                                    beds (clock w)])) |}])
  /\ (forall name breed age,
        validDogBody req name breed age ->
        sent (run hostPage4 next (run (setDogName castNumber) req w)) =
          sent (run (setDogName castNumber) req w)
            ++ [{| status := 200;
                   content := Render "page4"
                                (DogList (dogs w ++ [DogDoc.mk name breed age])) |}]).
Proof.
  intros Hcast Hup. split.
  - intros first last beds Hvalid Hz.
    rewrite (setName_ok _ _ _ _ _ _ Hcast Hvalid Hz (storeUp_nextFails _ Hup)).
    set (w1 := emit _ _).
    assert (nextFails w1 = false) as Hup1
      by apply (storeUp_nextFails _ (storeUp_spend _ Hup)).
    rewrite hostPage1_eq, Hup1. by autorewrite with world.
  - intros name breed age Hvalid.
    rewrite (setDogName_ok _ _ _ _ _ _ Hcast Hvalid (storeUp_nextFails _ Hup)).
    set (w1 := emit _ _).
    assert (nextFails w1 = false) as Hup1
      by apply (storeUp_nextFails _ (storeUp_spend _ Hup)).
    rewrite hostPage4_eq, Hup1. by autorewrite with world.
Qed.

Lemma created_records_are_listed_witness :
  sent (run hostPage4 (post [])
          (run (setDogName strictNumber)
             (post [("name", JStr "Rex"); ("breed", JStr "Collie"); ("age", JNum 4)])
             (world [] [DogDoc.mk "Fido" "Pug" 2] 30 [])))
    = [respond 201 [("name", JStr "Rex"); ("breed", JStr "Collie"); ("age", JNum 4)];
       {| status := 200;
          content := Render "page4"
                       (DogList [DogDoc.mk "Fido" "Pug" 2; DogDoc.mk "Rex" "Collie" 4]) |}].
Proof.
  destruct (created_records_are_listed strictNumber
              (post [("name", JStr "Rex"); ("breed", JStr "Collie"); ("age", JNum 4)])
              (post []) (world [] [DogDoc.mk "Fido" "Pug" 2] 30 [])) as [_ H].
  - intros z. reflexivity.
  - constructor.
  - rewrite (H "Rex" "Collie" 4); [reflexivity|].
    repeat split; (reflexivity || discriminate).
Defined.

Lemma searchDogName_found nameFilter req w s i d :
  filtersByEquality nameFilter ->
  body req !! "dogname" = Some (JStr s) ->
  s <> "" ->
  list_find (fun d => String.eqb s (DogDoc.name d) = true) (dogs w) = Some (i, d) ->
  safeAge (DogDoc.age d) ->
  nextFails w = false ->
  nextFails (spend w) = false ->
  run (searchDogName nameFilter) req w =
    emit (Respond (dogInfo (DogDoc.mk (DogDoc.name d) (DogDoc.breed d) (DogDoc.age d + 1))))
      (emit (Stored Dogs)
         (setDogs (<[i := DogDoc.mk (DogDoc.name d) (DogDoc.breed d) (DogDoc.age d + 1)]>
                     (dogs w))
            (spend (spend w)))).
Proof.
  intros Hfilter Hbody Hs Hfind Hage Hup Hup1.
  rewrite searchDogName_eq, (prop_Some _ _ _ Hbody).
  rewrite truthy_JStr by done. simpl negb. cbv iota.
  rewrite Hfilter, Hup, Hfind, Hup1, (older_safe _ Hage), (jsAdd_safe _ Hage).
  by rewrite (proj2 (Z.eqb_neq _ _)) by lia.
Qed.

(** X9: searching the same dog twice ages it by two years. For a body whose
    [dogname] is the name of a stored dog, where the dogs of that name have
    an age from -2^53 up to but not including 2^53 - 1, in a store with
    non-empty names that keeps answering, two calls of [searchDogName] in a
    row pick the same first dog of that name, answer 200 with its age plus
    one and then its age plus two, and leave it two years older with every
    other dog as before. *)
Theorem searchDogName_twice (nameFilter : jsval -> option (string -> bool))
    (req : Request) (w : World) (s : string) :
  filtersByEquality nameFilter ->
  body req !! "dogname" = Some (JStr s) ->
  (exists d, d ∈ dogs w /\ DogDoc.name d = s) ->
  Forall (fun d => DogDoc.name d = s ->
                   safeAge (DogDoc.age d) /\ safeAge (DogDoc.age d + 1)) (dogs w) ->
  namesNonEmpty w ->
  storeUp w ->
  exists i d,
    dogs w !! i = Some d
    /\ DogDoc.name d = s
    /\ sent (run (searchDogName nameFilter) req (run (searchDogName nameFilter) req w)) =
         sent w ++ [respond 200 [("name", JStr (DogDoc.name d));
                                 ("breed", JStr (DogDoc.breed d));
                                 ("age", JNum (DogDoc.age d + 1))];
                    respond 200 [("name", JStr (DogDoc.name d));
                                 ("breed", JStr (DogDoc.breed d));
                                 ("age", JNum (DogDoc.age d + 2))]]
    /\ dogs (run (searchDogName nameFilter) req (run (searchDogName nameFilter) req w)) =
         <[i := DogDoc.mk (DogDoc.name d) (DogDoc.breed d) (DogDoc.age d + 2)]> (dogs w).
Proof.
  intros Hfilter Hbody (d0 & Hin & Hname) Hsafe [_ Hdogs] Hup.
  assert (s <> "") as Hs.
  { rewrite Forall_forall in Hdogs. rewrite <- Hname. by apply Hdogs. }
  destruct (list_find_elem_of (fun d => String.eqb s (DogDoc.name d) = true) (dogs w) d0)
    as [[i d] Hfind]; [done | by apply String.eqb_eq |].
  pose proof Hfind as (Hi & Hd & _)%list_find_Some.
  assert (safeAge (DogDoc.age d) /\ safeAge (DogDoc.age d + 1)) as [Hage Hage1].
  { rewrite Forall_forall in Hsafe. apply Hsafe; [by eapply list_elem_of_lookup_2|].
    symmetry. by apply String.eqb_eq. }
  set (d1 := DogDoc.mk (DogDoc.name d) (DogDoc.breed d) (DogDoc.age d + 1)).
  pose proof (list_find_insert_same _ _ _ _ d1 Hfind Hd) as Hfind1.
  apply String.eqb_eq in Hd.
  pose proof (storeUp_spend _ Hup) as Hup1.
  pose proof (storeUp_spend _ Hup1) as Hup2.
  pose proof (storeUp_spend _ Hup2) as Hup3.
  exists i, d.
  rewrite (searchDogName_found nameFilter req w s i d) by (done || by apply storeUp_nextFails).
  fold d1. set (w1 := emit _ _).
  rewrite (searchDogName_found nameFilter req w1 s i d1);
    [| done | done | done | exact Hfind1 | exact Hage1
     | exact (storeUp_nextFails _ Hup2) | exact (storeUp_nextFails _ Hup3)].
  subst w1. autorewrite with world. simpl. rewrite list_insert_insert_eq.
  replace (DogDoc.age d + 1 + 1) with (DogDoc.age d + 2) by lia.
  rewrite <- app_assoc. by repeat split.
Qed.

Lemma searchDogName_twice_witness :
  exists i d,
    [DogDoc.mk "Fido" "Pug" 2; DogDoc.mk "Rex" "Collie" 4] !! i = Some d
    /\ dogs (run (searchDogName strictName) (post [("dogname", JStr "Rex")])
               (run (searchDogName strictName) (post [("dogname", JStr "Rex")])
                  (world [] [DogDoc.mk "Fido" "Pug" 2; DogDoc.mk "Rex" "Collie" 4] 30 [])))
       = <[i := DogDoc.mk (DogDoc.name d) (DogDoc.breed d) (DogDoc.age d + 2)]>
           [DogDoc.mk "Fido" "Pug" 2; DogDoc.mk "Rex" "Collie" 4].
Proof.
  destruct (searchDogName_twice strictName (post [("dogname", JStr "Rex")])
              (world [] [DogDoc.mk "Fido" "Pug" 2; DogDoc.mk "Rex" "Collie" 4] 30 [])
              "Rex") as (i & d & Hi & _ & _ & Hd).
  - intros s. reflexivity.
  - reflexivity.
  - exists (DogDoc.mk "Rex" "Collie" 4). split; [|reflexivity].
    simpl. apply list_elem_of_further, list_elem_of_here.
  - simpl. repeat (constructor; [intros _; repeat split; by vm_compute|]). constructor.
  - split; simpl; repeat constructor; discriminate.
  - constructor.
  - exists i, d. split; [exact Hi | exact Hd].
Defined.

(** At 2^53 the search adds nothing: from 2^53 - 1 the age reaches 2^53 and
    stays there. *)
Example searchDogName_twice_at_the_limit :
  dogs (run (searchDogName strictName) (post [("dogname", JStr "Rex")])
          (run (searchDogName strictName) (post [("dogname", JStr "Rex")])
             (world [] [DogDoc.mk "Rex" "Collie" 9007199254740991] 30 [])))
    = [DogDoc.mk "Rex" "Collie" 9007199254740992].
Proof. vm_compute. reflexivity. Qed.

(** ** What holds of every route *)

(** The one response of a call, read off an equation between the responses
    sent before and after it. *)
Ltac the_answer H :=
  autorewrite with world in H;
  first
    [ apply app_inv_head in H; injection H as <-
    | exfalso; apply (f_equal length) in H; rewrite length_app in H;
      simpl in H; lia ].

Lemma check_passed (a b c : bool) :
  negb a || negb b || negb c = false <-> a = true /\ b = true /\ c = true.
Proof. destruct a, b, c; simpl; intuition congruence. Qed.

(** X10: a call writes at most one response, and writes none in two cases
    only. Whatever the request and the world, a handler appends one
    response to those already sent, except [updateLast] when the store
    answers and holds no cat, and [setName] and [setDogName] when the
    fields pass the check but one of the two that go into a template
    literal cannot be converted to a string; these append none. *)
Theorem one_response_per_call (castNumber : jsval -> option Z)
    (nameFilter : jsval -> option (string -> bool))
    (r : route) (req : Request) (w : World) :
  exists rs,
    sent (run (exports castNumber nameFilter r) req w) = sent w ++ rs
    /\ (length rs <= 1)%nat
    /\ (rs = [] <-> silent r req w).
Proof.
  assert (forall x w', sent w' = sent w ++ [x] -> ~ silent r req w ->
            exists rs, sent w' = sent w ++ rs /\ (length rs <= 1)%nat
                       /\ (rs = [] <-> silent r req w)) as One.
  { intros x w' Hs Hn. exists [x]. split; [done|]. split; [simpl; lia|].
    split; [discriminate | by intros ?]. }
  assert (forall w', sent w' = sent w -> silent r req w ->
            exists rs, sent w' = sent w ++ rs /\ (length rs <= 1)%nat
                       /\ (rs = [] <-> silent r req w)) as None_.
  { intros w' Hs Hy. exists []. rewrite app_nil_r. split; [done|].
    split; [simpl; lia|]. by split. }
  destruct r; closed_form;
    try (repeat case_match; (eapply One; [by autorewrite with world | simpl; tauto])).
  - (* setName *)
    destruct (_ || _) eqn:Hguard.
    { eapply One; [by autorewrite with world|].
      intros (Ha & Hb & Hc & _). rewrite Ha, Hb, Hc in Hguard. discriminate. }
    apply check_passed in Hguard as (Ha & Hb & Hc).
    destruct (to_string (prop (body req) "firstname")) as [first|] eqn:Hfirst;
      [|apply None_; [done | by repeat split; try left]].
    destruct (to_string (prop (body req) "lastname")) as [last|] eqn:Hlast;
      [|apply None_; [done | by repeat split; try right]].
    repeat case_match;
      (eapply One; [by autorewrite with world
                  | unfold silent; intros (_ & _ & _ & [?|?]); congruence]).
  - (* updateLast *)
    destruct (nextFails w) eqn:Hup.
    { eapply One; [by autorewrite with world | unfold silent; intros [? _]; congruence]. }
    destruct (latest (cats w)) as [[i c]|] eqn:Hl.
    + eapply One; [by autorewrite with world|].
      intros [_ Hnil]. by rewrite Hnil, latest_nil in Hl.
    + apply None_; [done|]. split; [done | by apply latest_None].
  - (* setDogName *)
    destruct (_ || _) eqn:Hguard.
    { eapply One; [by autorewrite with world|].
      intros (Ha & Hb & Hc & _). rewrite Ha, Hb, Hc in Hguard. discriminate. }
    apply check_passed in Hguard as (Ha & Hb & Hc).
    destruct (to_string (prop (body req) "name")) as [name|] eqn:Hname;
      [|apply None_; [done | by repeat split; try left]].
    destruct (to_string (prop (body req) "breed")) as [breed|] eqn:Hbreed;
      [|apply None_; [done | by repeat split; try right]].
    repeat case_match;
      (eapply One; [by autorewrite with world
                  | unfold silent; intros (_ & _ & _ & [?|?]); congruence]).
Qed.

Example setName_object_name_no_response :
  truthy (JObj [("toString", JNull)]) = true
  /\ sent (run (setName strictNumber)
             (post [("firstname", JObj [("toString", JNull)]); ("lastname", JStr "Cat");
                    ("beds", JNum 3)])
             (world [] [] 30 [])) = []
  /\ unhandled (run (setName strictNumber)
                  (post [("firstname", JObj [("toString", JNull)]);
                         ("lastname", JStr "Cat"); ("beds", JNum 3)])
                  (world [] [] 30 [])) = [TypeError NoPrimitive].
Proof. repeat split. Qed.
















Example records_after_three_arrivals :
  dogs (serve strictNumber strictName
          [{| via := SearchDogName; request := post [("dogname", JStr "Rex")];
              now := 10; faults := [] |};
           {| via := SetDogName;
              request := post [("name", JStr "Fido"); ("breed", JStr "Pug");
                               ("age", JNum 2)];
              now := 20; faults := [] |};
           {| via := SearchDogName; request := post [("dogname", JStr "Rex")];
              now := 30; faults := [false; true] |}]
          (world [] [DogDoc.mk "Rex" "Collie" 4] 0 []))
    = [DogDoc.mk "Rex" "Collie" 5; DogDoc.mk "Fido" "Pug" 2].
Proof. reflexivity. Qed.

(** X12: a route writes to its own collection only. The page routes,
    [getName], [searchName] and the not-found route leave both collections
    as they are; [setName] and [updateLast] leave the dogs as they are;
    [setDogName] and [searchDogName] leave the cats as they are. The two
    static pages and the not-found route do not contact the store. *)
Theorem routes_write_their_own_collection (castNumber : jsval -> option Z)
    (nameFilter : jsval -> option (string -> bool))
    (r : route) (req : Request) (w : World) :
  match r with
  | SetName | UpdateLast =>
      dogs (run (exports castNumber nameFilter r) req w) = dogs w
  | SetDogName | SearchDogName =>
      cats (run (exports castNumber nameFilter r) req w) = cats w
  | Page2 | Page3 | NotFound =>
      sameStore w (run (exports castNumber nameFilter r) req w)
      /\ outages (run (exports castNumber nameFilter r) req w) = outages w
  | Index | Page1 | Page4 | GetName | SearchName =>
      sameStore w (run (exports castNumber nameFilter r) req w)
  end.
Proof. destruct r; closed_form; repeat case_match; by repeat split. Qed.

(** X13: a 500 tells the client nothing but a fixed text, and means nothing
    was written. Whenever the response of a call has status 500, the error
    was printed to the console just before, the body is the [error] text of
    the route, the same whatever the error was, and both collections are as
    before the call (a round trip that fails changes nothing in the store). *)
Theorem failures_are_logged_and_generic (castNumber : jsval -> option Z)
    (nameFilter : jsval -> option (string -> bool))
    (r : route) (req : Request) (w : World) (resp : Response) :
  sent (run (exports castNumber nameFilter r) req w) = sent w ++ [resp] ->
  status resp = 500 ->
  exists e m,
    failureMessage r = Some m
    /\ resp = respond 500 [("error", JStr m)]
    /\ trace (run (exports castNumber nameFilter r) req w) =
         trace w ++ [Console (LogErr e); Respond resp]
    /\ sameStore w (run (exports castNumber nameFilter r) req w).
Proof.
  intros Hsent H500. revert Hsent.
  destruct r; closed_form; repeat case_match; intros Hsent; the_answer Hsent;
    try discriminate H500;
    eexists _, _; (split; [reflexivity|]); (split; [reflexivity|]);
    simpl; rewrite <- app_assoc; by repeat split.
Qed.

Lemma failures_are_logged_and_generic_witness :
  exists e m,
    failureMessage SearchDogName = Some m
    /\ trace (run (searchDogName strictName) (post [("dogname", JStr "Rex")])
                (world [] [DogDoc.mk "Rex" "Collie" 4] 30 [false; true]))
       = [Console (LogErr e); Respond (respond 500 [("error", JStr m)])]
    /\ dogs (run (searchDogName strictName) (post [("dogname", JStr "Rex")])
               (world [] [DogDoc.mk "Rex" "Collie" 4] 30 [false; true]))
       = [DogDoc.mk "Rex" "Collie" 4].
Proof.
  destruct (failures_are_logged_and_generic strictNumber strictName SearchDogName
              (post [("dogname", JStr "Rex")])
              (world [] [DogDoc.mk "Rex" "Collie" 4] 30 [false; true])
              (respond 500 [("error", JStr "Something went wrong")]))
    as (e & m & Hm & _ & Ht & _ & Hd).
  - reflexivity.
  - reflexivity.
  - exists e, m. split; [exact Hm|]. split; [|exact Hd].
    simpl in Hm. injection Hm as <-. exact Ht.
Defined.

(** X14: a 400 is answered before the store is contacted. Whenever the
    response of a call has status 400, its body is the [error] text of the
    route about the fields it requires, both collections are as before, and
    no round trip to the store was made. *)
Theorem refusals_precede_the_store (castNumber : jsval -> option Z)
    (nameFilter : jsval -> option (string -> bool))
    (r : route) (req : Request) (w : World) (resp : Response) :
  sent (run (exports castNumber nameFilter r) req w) = sent w ++ [resp] ->
  status resp = 400 ->
  exists m,
    refusalMessage r = Some m
    /\ resp = respond 400 [("error", JStr m)]
    /\ sameStore w (run (exports castNumber nameFilter r) req w)
    /\ outages (run (exports castNumber nameFilter r) req w) = outages w.
Proof.
  intros Hsent H400. revert Hsent.
  destruct r; closed_form; repeat case_match; intros Hsent; the_answer Hsent;
    try discriminate H400;
    eexists; by repeat split.
Qed.

Lemma refusals_precede_the_store_witness :
  exists m,
    refusalMessage SetDogName = Some m
    /\ outages (run (setDogName strictNumber)
                  (post [("name", JStr "Rex"); ("age", JNum 4)])
                  (world [] [] 30 [true]))
       = [true].
Proof.
  destruct (refusals_precede_the_store strictNumber strictName SetDogName
              (post [("name", JStr "Rex"); ("age", JNum 4)])
              (world [] [] 30 [true]) missingDogFields)
    as (m & Hm & _ & _ & Ho).
  - reflexivity.
  - reflexivity.
  - exists m. split; [exact Hm | exact Ho].
Defined.

(** X15: a record is created exactly when the answer is 201. Whenever a call
    wrote a response, its status is 201 if and only if the two collections
    together hold one record more than before; and only [setName] and
    [setDogName] ever answer 201. *)
Theorem created_exactly_when_201 (castNumber : jsval -> option Z)
    (nameFilter : jsval -> option (string -> bool))
    (r : route) (req : Request) (w : World) (resp : Response) :
  sent (run (exports castNumber nameFilter r) req w) = sent w ++ [resp] ->
  (status resp = 201 <->
   (length (cats (run (exports castNumber nameFilter r) req w))
    + length (dogs (run (exports castNumber nameFilter r) req w))
    = S (length (cats w) + length (dogs w)))%nat)
  /\ (status resp = 201 -> r = SetName \/ r = SetDogName).
Proof.
  destruct r; closed_form; repeat case_match; intros Hsent; the_answer Hsent;
    simpl; rewrite ?length_app, ?length_insert; simpl;
    (split; [split; [try discriminate; lia | try lia; done] | try discriminate; auto]).
Qed.

Lemma created_exactly_when_201_witness :
  (length (cats (run (setName strictNumber)
                   (post [("firstname", JStr "Tom"); ("lastname", JStr "Cat");
                          ("beds", JNum 3)])
                   (world [CatDoc.mk "Old Cat" 1 10] [] 30 [])))
   + length (dogs (run (setName strictNumber)
                     (post [("firstname", JStr "Tom"); ("lastname", JStr "Cat");
                            ("beds", JNum 3)])
                     (world [CatDoc.mk "Old Cat" 1 10] [] 30 [])))
   = 2)%nat.
Proof.
  apply (created_exactly_when_201 strictNumber strictName SetName
           (post [("firstname", JStr "Tom"); ("lastname", JStr "Cat"); ("beds", JNum 3)])
           (world [CatDoc.mk "Old Cat" 1 10] [] 30 [])
           (respond 201 [("name", JStr "Tom Cat"); ("beds", JNum 3)])).
  - reflexivity.
  - reflexivity.
Defined.

(** X16: a write is always acknowledged. What a call appends to the trace
    contains a store write only in the form of that one write followed at
    once by a response of status 200 or 201; and a call whose trace shows
    no write has left both collections as they were. *)
Theorem writes_are_acknowledged (castNumber : jsval -> option Z)
    (nameFilter : jsval -> option (string -> bool))
    (r : route) (req : Request) (w : World) :
  exists new,
    trace (run (exports castNumber nameFilter r) req w) = trace w ++ new
    /\ (forall c, Stored c ∈ new ->
                  exists resp, new = [Stored c; Respond resp]
                               /\ (status resp = 200 \/ status resp = 201))
    /\ ((forall c, Stored c ∉ new) ->
        sameStore w (run (exports castNumber nameFilter r) req w)).
Proof.
  destruct r; closed_form; repeat case_match;
    first
      [ (* nothing appended *)
        exists []; split; [by rewrite app_nil_r|];
        split; [intros c Hc; by apply elem_of_nil in Hc | done]
      | (* a write and its response *)
        eexists [Stored _; Respond _];
        split; [simpl; by rewrite <- app_assoc|];
        split;
        [ intros c Hc; apply elem_of_cons in Hc as [[= <-]|Hc];
          [eexists; split; [reflexivity | simpl; auto]
          | apply elem_of_cons in Hc as [Hc|Hc];
            [discriminate | by apply elem_of_nil in Hc]]
        | intros Hno; exfalso; eapply Hno, elem_of_cons; by left ]
      | (* a log and a response *)
        eexists [Console _; Respond _];
        split; [simpl; by rewrite <- app_assoc|];
        split;
        [ intros c Hc; apply elem_of_cons in Hc as [Hc|Hc]; [discriminate|];
          apply elem_of_cons in Hc as [Hc|Hc];
          [discriminate | by apply elem_of_nil in Hc]
        | done ]
      | (* a response alone *)
        eexists [Respond _];
        split; [reflexivity|];
        split;
        [ intros c Hc; apply elem_of_cons in Hc as [Hc|Hc];
          [discriminate | by apply elem_of_nil in Hc]
        | done ] ].
Qed.
